(** * clientv2: the domain-scoped facade over the flat dpservice client

    A shallow embedding of [go/dpservice-go/clientv2]: the call-option
    mechanism ([CallOption], [WithIgnoredCodes], [buildCallOptions],
    [toLegacyIgnored]), the handle structs with their accessors, and the
    one-line forwarders to the legacy client.

    Conventions of the embedding:
    - a Go slice is a [slice]: either the nil slice or a backing list;
      the facade never writes through a slice, so sharing of backing
      arrays is not modelled;
    - a variadic parameter that the callee only ranges over or appends
      from ([opts ...CallOption], [codes ...uint32]) is a [list];
    - [uint32] and [uint8] values are integers; the facade passes them on
      and computes nothing with them;
    - a Go function value that may be nil is an [option]; calling the nil
      function panics, and a panic is [None];
    - pointers to handle structs are locations in a heap of objects, and
      dereferencing a location that does not hold the expected struct
      panics;
    - the legacy client is an interface value and exists (it is not the
      nil interface): a record of methods, each a function of the state
      of the outside world that returns a reply and the next state. *)

From Stdlib Require Import ZArith Lia.
From stdpp Require Import base option list strings.

Set Default Proof Using "Type".
Local Open Scope Z_scope.

(** ** Go slices *)

Inductive slice (A : Type) : Type :=
| nil_slice
| mk_slice (backing : list A).
Arguments nil_slice {A}.
Arguments mk_slice {A} backing.

Definition elems {A} (s : slice A) : list A :=
  match s with
  | nil_slice => []
  | mk_slice l => l
  end.

Definition len {A} (s : slice A) : nat := length (elems s).

(** [append(s, xs...)]: with nothing to add the result is [s] itself (so
    nil stays nil); otherwise it is a non-nil slice holding the elements
    of [s] followed by [xs]. *)
Definition append {A} (s : slice A) (xs : list A) : slice A :=
  match xs with
  | [] => s
  | _ :: _ => mk_slice (elems s ++ xs)
  end.

(** ** The call-option mechanism *)

Definition uint32 := Z.

Definition uint8 := Z.

Record callOptions := { ignoredCodes : slice uint32 }.

(** [var o callOptions] *)
Definition zero_callOptions : callOptions := {| ignoredCodes := nil_slice |}.

(** [type CallOption]: a function that updates the [callOptions] it is
    given a pointer to, or nil. *)
Definition CallOption := option (callOptions -> callOptions).

Definition WithIgnoredCodes (codes : list uint32) : CallOption :=
  Some (fun o => {| ignoredCodes := append (ignoredCodes o) codes |}).

(** [opt != nil] *)
Definition not_nil (opt : CallOption) : bool :=
  match opt with
  | Some _ => true
  | None => false
  end.

(** [opt(&o)]: calling the nil function value panics. *)
Definition call_option (opt : CallOption) (o : callOptions) : option callOptions :=
  match opt with
  | Some f => Some (f o)
  | None => None
  end.

(** The loop [for _, opt := range opts { if opt != nil { opt(&o) } }]. *)
Fixpoint range_opts (opts : list CallOption) (o : callOptions) : option callOptions :=
  match opts with
  | [] => Some o
  | opt :: rest =>
      if not_nil opt
      then o' ← call_option opt o; range_opts rest o'
      else range_opts rest o
  end.

Definition buildCallOptions (opts : list CallOption) : option callOptions :=
  range_opts opts zero_callOptions.

Definition toLegacyIgnored (opts : list CallOption) : option (slice (slice uint32)) :=
  o ← buildCallOptions opts;
  if Nat.eqb (len (ignoredCodes o)) 0
  then Some nil_slice
  else Some (mk_slice [ignoredCodes o]).

(** The option values a caller outside the package can write: the nil
    [CallOption] and [WithIgnoredCodes(codes...)]. *)
Inductive OptionValue :=
| NilOption
| IgnoredCodes (codes : list uint32).

Definition option_of (v : OptionValue) : CallOption :=
  match v with
  | NilOption => None
  | IgnoredCodes codes => WithIgnoredCodes codes
  end.

(** The codes an option value contributes when it is applied. *)
Definition contributed (v : OptionValue) : list uint32 :=
  match v with
  | NilOption => []
  | IgnoredCodes codes => codes
  end.

(** The slice reached by appending [l] to the nil slice. *)
Definition slice_of {A} (l : list A) : slice A := append nil_slice l.

(** ** Types of the packages the facade imports

    The payloads of package [api] are opaque to the facade: it passes
    pointers to them through. [api.t] names them. *)

Module api.
Inductive t :=
  | LoadBalancer | LoadBalancerList | PrefixList | LoadBalancerPrefix
  | LoadBalancerTargetList | LoadBalancerTarget | Interface | InterfaceList
  | VirtualIP | Prefix | RouteList | Route | Nat | NatList | NeighborNat
  | FirewallRuleList | FirewallRule | Initialized | Vni | Version
  | CaptureStart | CaptureStop | CaptureStatus.
End api.

(** The methods of [legacy.Client] that the facade calls, by name. *)
Module method.
Inductive t :=
  | GetLoadBalancer | ListLoadBalancers | CreateLoadBalancer
  | DeleteLoadBalancer | ListLoadBalancerPrefixes | CreateLoadBalancerPrefix
  | DeleteLoadBalancerPrefix | ListLoadBalancerTargets
  | CreateLoadBalancerTarget | DeleteLoadBalancerTarget | GetInterface
  | ListInterfaces | CreateInterface | DeleteInterface | GetVirtualIP
  | CreateVirtualIP | DeleteVirtualIP | ListPrefixes | CreatePrefix
  | DeletePrefix | ListRoutes | CreateRoute | DeleteRoute | GetNat
  | CreateNat | DeleteNat | ListNats | ListLocalNats | ListNeighborNats
  | CreateNeighborNat | DeleteNeighborNat | ListFirewallRules
  | GetFirewallRule | CreateFirewallRule | DeleteFirewallRule
  | CheckInitialized | Initialize | GetVni | ResetVni | GetVersion
  | CaptureStart | CaptureStop | CaptureStatus.
End method.

(** What the facade takes from [context], [net/netip], [api], the
    generated [proto] package and the builtin [error]. *)
Class Foreign := {
  context_Context : Type;
  error : Type;
  netip_Prefix : Type;
  netip_Addr : Type;
  obj : api.t -> Type;
  DPDKironcoreClient : Type
}.

(** The address of a heap object. *)
Abbreviation loc := nat (only parsing).

Section Facade.
Context {F : Foreign} {W : Type}.

(** What a legacy method returns: a pointer to an [api] payload and an
    [error]. *)
Definition Reply (t : api.t) : Type := (obj t * error)%type.

(** A call that reaches the outside world, whose state is a [W]. *)
Definition Remote (A : Type) : Type := W -> A * W.

(** The variadic [ignoredErrors ...[]uint32] of every legacy method. *)
Definition Ignored : Type := slice (slice uint32).

(** ** The legacy client

    [legacy.Client] is an interface; of its methods, those the facade
    calls, with the parameter lists the call sites give them. *)
Record LegacyClient := {
  GetLoadBalancer : context_Context -> string -> Ignored -> Remote (Reply api.LoadBalancer);
  ListLoadBalancers : context_Context -> Ignored -> Remote (Reply api.LoadBalancerList);
  CreateLoadBalancer : context_Context -> obj api.LoadBalancer -> Ignored -> Remote (Reply api.LoadBalancer);
  DeleteLoadBalancer : context_Context -> string -> Ignored -> Remote (Reply api.LoadBalancer);
  ListLoadBalancerPrefixes : context_Context -> string -> Ignored -> Remote (Reply api.PrefixList);
  CreateLoadBalancerPrefix : context_Context -> obj api.LoadBalancerPrefix -> Ignored -> Remote (Reply api.LoadBalancerPrefix);
  DeleteLoadBalancerPrefix : context_Context -> string -> netip_Prefix -> Ignored -> Remote (Reply api.LoadBalancerPrefix);
  ListLoadBalancerTargets : context_Context -> string -> Ignored -> Remote (Reply api.LoadBalancerTargetList);
  CreateLoadBalancerTarget : context_Context -> obj api.LoadBalancerTarget -> Ignored -> Remote (Reply api.LoadBalancerTarget);
  DeleteLoadBalancerTarget : context_Context -> string -> netip_Addr -> Ignored -> Remote (Reply api.LoadBalancerTarget);
  GetInterface : context_Context -> string -> Ignored -> Remote (Reply api.Interface);
  ListInterfaces : context_Context -> Ignored -> Remote (Reply api.InterfaceList);
  CreateInterface : context_Context -> obj api.Interface -> Ignored -> Remote (Reply api.Interface);
  DeleteInterface : context_Context -> string -> Ignored -> Remote (Reply api.Interface);
  GetVirtualIP : context_Context -> string -> Ignored -> Remote (Reply api.VirtualIP);
  CreateVirtualIP : context_Context -> obj api.VirtualIP -> Ignored -> Remote (Reply api.VirtualIP);
  DeleteVirtualIP : context_Context -> string -> Ignored -> Remote (Reply api.VirtualIP);
  ListPrefixes : context_Context -> string -> Ignored -> Remote (Reply api.PrefixList);
  CreatePrefix : context_Context -> obj api.Prefix -> Ignored -> Remote (Reply api.Prefix);
  DeletePrefix : context_Context -> string -> netip_Prefix -> Ignored -> Remote (Reply api.Prefix);
  ListRoutes : context_Context -> uint32 -> Ignored -> Remote (Reply api.RouteList);
  CreateRoute : context_Context -> obj api.Route -> Ignored -> Remote (Reply api.Route);
  DeleteRoute : context_Context -> uint32 -> netip_Prefix -> Ignored -> Remote (Reply api.Route);
  GetNat : context_Context -> string -> Ignored -> Remote (Reply api.Nat);
  CreateNat : context_Context -> obj api.Nat -> Ignored -> Remote (Reply api.Nat);
  DeleteNat : context_Context -> string -> Ignored -> Remote (Reply api.Nat);
  ListNats : context_Context -> netip_Addr -> string -> Ignored -> Remote (Reply api.NatList);
  ListLocalNats : context_Context -> netip_Addr -> Ignored -> Remote (Reply api.NatList);
  ListNeighborNats : context_Context -> netip_Addr -> Ignored -> Remote (Reply api.NatList);
  CreateNeighborNat : context_Context -> obj api.NeighborNat -> Ignored -> Remote (Reply api.NeighborNat);
  DeleteNeighborNat : context_Context -> obj api.NeighborNat -> Ignored -> Remote (Reply api.NeighborNat);
  ListFirewallRules : context_Context -> string -> Ignored -> Remote (Reply api.FirewallRuleList);
  GetFirewallRule : context_Context -> string -> string -> Ignored -> Remote (Reply api.FirewallRule);
  CreateFirewallRule : context_Context -> obj api.FirewallRule -> Ignored -> Remote (Reply api.FirewallRule);
  DeleteFirewallRule : context_Context -> string -> string -> Ignored -> Remote (Reply api.FirewallRule);
  CheckInitialized : context_Context -> Ignored -> Remote (Reply api.Initialized);
  Initialize : context_Context -> Ignored -> Remote (Reply api.Initialized);
  GetVni : context_Context -> uint32 -> uint8 -> Ignored -> Remote (Reply api.Vni);
  ResetVni : context_Context -> uint32 -> uint8 -> Ignored -> Remote (Reply api.Vni);
  GetVersion : context_Context -> obj api.Version -> Ignored -> Remote (Reply api.Version);
  CaptureStart : context_Context -> obj api.CaptureStart -> Ignored -> Remote (Reply api.CaptureStart);
  CaptureStop : context_Context -> Ignored -> Remote (Reply api.CaptureStop);
  CaptureStatus : context_Context -> Ignored -> Remote (Reply api.CaptureStatus)
}.

(** ** The handle structs: each holds the legacy client and nothing else *)

Record rootAdapter := { rootAdapter_legacy : LegacyClient }.
Record lbClient := { lbClient_legacy : LegacyClient }.
Record lbPrefixesClient := { lbPrefixesClient_legacy : LegacyClient }.
Record lbTargetsClient := { lbTargetsClient_legacy : LegacyClient }.
Record ifaceClient := { ifaceClient_legacy : LegacyClient }.
Record vipClient := { vipClient_legacy : LegacyClient }.
Record ifacePrefixesClient := { ifacePrefixesClient_legacy : LegacyClient }.
Record routeClient := { routeClient_legacy : LegacyClient }.
Record natClient := { natClient_legacy : LegacyClient }.
Record fwClient := { fwClient_legacy : LegacyClient }.
Record systemClient := { systemClient_legacy : LegacyClient }.
Record captureClient := { captureClient_legacy : LegacyClient }.

(** A heap object is a value of one of the handle structs. *)
Inductive Obj :=
| O_rootAdapter (s : rootAdapter)
| O_lbClient (s : lbClient)
| O_lbPrefixesClient (s : lbPrefixesClient)
| O_lbTargetsClient (s : lbTargetsClient)
| O_ifaceClient (s : ifaceClient)
| O_vipClient (s : vipClient)
| O_ifacePrefixesClient (s : ifacePrefixesClient)
| O_routeClient (s : routeClient)
| O_natClient (s : natClient)
| O_fwClient (s : fwClient)
| O_systemClient (s : systemClient)
| O_captureClient (s : captureClient).


Record Machine := { heap : list Obj; world : W }.

(** ** Programs: a state monad over the machine in which a panic is [None] *)

Definition M (A : Type) : Type := Machine -> option (A * Machine).

Definition ret {A} (a : A) : M A := fun m => Some (a, m).

Definition bind {A B} (c : M A) (k : A -> M B) : M B :=
  fun m =>
    match c m with
    | Some (a, m') => k a m'
    | None => None
    end.

Notation "'let!' x ':=' c 'in' k" := (bind c (fun x => k))
  (at level 10, x name, c at level 100, k at level 200).

(** [&T{...}]: allocate a struct and return its address. *)
Definition new (o : Obj) : M loc :=
  fun m => Some (length (heap m), {| heap := heap m ++ [o]; world := world m |}).

(** A pure computation that may panic. *)
Definition eval {A} (x : option A) : M A :=
  fun m =>
    match x with
    | Some a => Some (a, m)
    | None => None
    end.

(** A call of a legacy method. *)
Definition remote {A} (f : Remote A) : M A :=
  fun m =>
    let (a, w) := f (world m) in
    Some (a, {| heap := heap m; world := w |}).

(** Dereferencing a receiver [c *T]: the object at [c] must be a [T]. *)
Definition load_rootAdapter (c : loc) : M rootAdapter :=
  fun m =>
    match heap m !! c with
    | Some (O_rootAdapter s) => Some (s, m)
    | _ => None
    end.

Definition load_lbClient (c : loc) : M lbClient :=
  fun m =>
    match heap m !! c with
    | Some (O_lbClient s) => Some (s, m)
    | _ => None
    end.

Definition load_lbPrefixesClient (c : loc) : M lbPrefixesClient :=
  fun m =>
    match heap m !! c with
    | Some (O_lbPrefixesClient s) => Some (s, m)
    | _ => None
    end.

Definition load_lbTargetsClient (c : loc) : M lbTargetsClient :=
  fun m =>
    match heap m !! c with
    | Some (O_lbTargetsClient s) => Some (s, m)
    | _ => None
    end.

Definition load_ifaceClient (c : loc) : M ifaceClient :=
  fun m =>
    match heap m !! c with
    | Some (O_ifaceClient s) => Some (s, m)
    | _ => None
    end.

Definition load_vipClient (c : loc) : M vipClient :=
  fun m =>
    match heap m !! c with
    | Some (O_vipClient s) => Some (s, m)
    | _ => None
    end.

Definition load_ifacePrefixesClient (c : loc) : M ifacePrefixesClient :=
  fun m =>
    match heap m !! c with
    | Some (O_ifacePrefixesClient s) => Some (s, m)
    | _ => None
    end.

Definition load_routeClient (c : loc) : M routeClient :=
  fun m =>
    match heap m !! c with
    | Some (O_routeClient s) => Some (s, m)
    | _ => None
    end.

Definition load_natClient (c : loc) : M natClient :=
  fun m =>
    match heap m !! c with
    | Some (O_natClient s) => Some (s, m)
    | _ => None
    end.

Definition load_fwClient (c : loc) : M fwClient :=
  fun m =>
    match heap m !! c with
    | Some (O_fwClient s) => Some (s, m)
    | _ => None
    end.

Definition load_systemClient (c : loc) : M systemClient :=
  fun m =>
    match heap m !! c with
    | Some (O_systemClient s) => Some (s, m)
    | _ => None
    end.

Definition load_captureClient (c : loc) : M captureClient :=
  fun m =>
    match heap m !! c with
    | Some (O_captureClient s) => Some (s, m)
    | _ => None
    end.

(** ** Construction *)

Section Construction.
(** [legacy.NewClient], the constructor of the legacy client. *)
Variable NewClient : DPDKironcoreClient -> LegacyClient.

Definition NewFromProto (rpc : DPDKironcoreClient) : M loc :=
  new (O_rootAdapter {| rootAdapter_legacy := NewClient rpc |}).
End Construction.

Definition AsV2 (c : LegacyClient) : M loc :=
  new (O_rootAdapter {| rootAdapter_legacy := c |}).

(** ** Accessors *)

Definition rootAdapter_LoadBalancers (r : loc) : M loc :=
  let! s := load_rootAdapter r in
  new (O_lbClient {| lbClient_legacy := rootAdapter_legacy s |}).

Definition rootAdapter_Interfaces (r : loc) : M loc :=
  let! s := load_rootAdapter r in
  new (O_ifaceClient {| ifaceClient_legacy := rootAdapter_legacy s |}).

Definition rootAdapter_Routes (r : loc) : M loc :=
  let! s := load_rootAdapter r in
  new (O_routeClient {| routeClient_legacy := rootAdapter_legacy s |}).

Definition rootAdapter_NATs (r : loc) : M loc :=
  let! s := load_rootAdapter r in
  new (O_natClient {| natClient_legacy := rootAdapter_legacy s |}).

Definition rootAdapter_Firewall (r : loc) : M loc :=
  let! s := load_rootAdapter r in
  new (O_fwClient {| fwClient_legacy := rootAdapter_legacy s |}).

Definition rootAdapter_System (r : loc) : M loc :=
  let! s := load_rootAdapter r in
  new (O_systemClient {| systemClient_legacy := rootAdapter_legacy s |}).

Definition rootAdapter_Capture (r : loc) : M loc :=
  let! s := load_rootAdapter r in
  new (O_captureClient {| captureClient_legacy := rootAdapter_legacy s |}).

Definition lbClient_Prefixes (c : loc) : M loc :=
  let! s := load_lbClient c in
  new (O_lbPrefixesClient {| lbPrefixesClient_legacy := lbClient_legacy s |}).

Definition lbClient_Targets (c : loc) : M loc :=
  let! s := load_lbClient c in
  new (O_lbTargetsClient {| lbTargetsClient_legacy := lbClient_legacy s |}).

Definition ifaceClient_VIP (c : loc) : M loc :=
  let! s := load_ifaceClient c in
  new (O_vipClient {| vipClient_legacy := ifaceClient_legacy s |}).

Definition ifaceClient_Prefixes (c : loc) : M loc :=
  let! s := load_ifaceClient c in
  new (O_ifacePrefixesClient {| ifacePrefixesClient_legacy := ifaceClient_legacy s |}).

Definition ifaceClient_Firewall (c : loc) : M loc :=
  let! s := load_ifaceClient c in
  new (O_fwClient {| fwClient_legacy := ifaceClient_legacy s |}).

(** ** Operations *)

(** *** Load balancers *)

Definition lbClient_Get (c : loc) (ctx : context_Context) (id : string) (opts : list CallOption)
  : M (Reply api.LoadBalancer) :=
  let! s := load_lbClient c in
  let! ign := eval (toLegacyIgnored opts) in
  remote (GetLoadBalancer (lbClient_legacy s) ctx id ign).

Definition lbClient_List (c : loc) (ctx : context_Context) (opts : list CallOption)
  : M (Reply api.LoadBalancerList) :=
  let! s := load_lbClient c in
  let! ign := eval (toLegacyIgnored opts) in
  remote (ListLoadBalancers (lbClient_legacy s) ctx ign).

Definition lbClient_Create (c : loc) (ctx : context_Context) (lb : obj api.LoadBalancer) (opts : list CallOption)
  : M (Reply api.LoadBalancer) :=
  let! s := load_lbClient c in
  let! ign := eval (toLegacyIgnored opts) in
  remote (CreateLoadBalancer (lbClient_legacy s) ctx lb ign).

Definition lbClient_Delete (c : loc) (ctx : context_Context) (id : string) (opts : list CallOption)
  : M (Reply api.LoadBalancer) :=
  let! s := load_lbClient c in
  let! ign := eval (toLegacyIgnored opts) in
  remote (DeleteLoadBalancer (lbClient_legacy s) ctx id ign).

(** *** Load-balancer prefixes *)

Definition lbPrefixesClient_List (c : loc) (ctx : context_Context) (interfaceID : string) (opts : list CallOption)
  : M (Reply api.PrefixList) :=
  let! s := load_lbPrefixesClient c in
  let! ign := eval (toLegacyIgnored opts) in
  remote (ListLoadBalancerPrefixes (lbPrefixesClient_legacy s) ctx interfaceID ign).

Definition lbPrefixesClient_Create (c : loc) (ctx : context_Context) (prefix : obj api.LoadBalancerPrefix) (opts : list CallOption)
  : M (Reply api.LoadBalancerPrefix) :=
  let! s := load_lbPrefixesClient c in
  let! ign := eval (toLegacyIgnored opts) in
  remote (CreateLoadBalancerPrefix (lbPrefixesClient_legacy s) ctx prefix ign).

Definition lbPrefixesClient_Delete (c : loc) (ctx : context_Context) (interfaceID : string) (prefix : netip_Prefix) (opts : list CallOption)
  : M (Reply api.LoadBalancerPrefix) :=
  let! s := load_lbPrefixesClient c in
  let! ign := eval (toLegacyIgnored opts) in
  remote (DeleteLoadBalancerPrefix (lbPrefixesClient_legacy s) ctx interfaceID prefix ign).

(** *** Load-balancer targets *)

Definition lbTargetsClient_List (c : loc) (ctx : context_Context) (loadBalancerID : string) (opts : list CallOption)
  : M (Reply api.LoadBalancerTargetList) :=
  let! s := load_lbTargetsClient c in
  let! ign := eval (toLegacyIgnored opts) in
  remote (ListLoadBalancerTargets (lbTargetsClient_legacy s) ctx loadBalancerID ign).

Definition lbTargetsClient_Create (c : loc) (ctx : context_Context) (target : obj api.LoadBalancerTarget) (opts : list CallOption)
  : M (Reply api.LoadBalancerTarget) :=
  let! s := load_lbTargetsClient c in
  let! ign := eval (toLegacyIgnored opts) in
  remote (CreateLoadBalancerTarget (lbTargetsClient_legacy s) ctx target ign).

Definition lbTargetsClient_Delete (c : loc) (ctx : context_Context) (lbID : string) (targetIP : netip_Addr) (opts : list CallOption)
  : M (Reply api.LoadBalancerTarget) :=
  let! s := load_lbTargetsClient c in
  let! ign := eval (toLegacyIgnored opts) in
  remote (DeleteLoadBalancerTarget (lbTargetsClient_legacy s) ctx lbID targetIP ign).

(** *** Interfaces *)

Definition ifaceClient_Get (c : loc) (ctx : context_Context) (id : string) (opts : list CallOption)
  : M (Reply api.Interface) :=
  let! s := load_ifaceClient c in
  let! ign := eval (toLegacyIgnored opts) in
  remote (GetInterface (ifaceClient_legacy s) ctx id ign).

Definition ifaceClient_List (c : loc) (ctx : context_Context) (opts : list CallOption)
  : M (Reply api.InterfaceList) :=
  let! s := load_ifaceClient c in
  let! ign := eval (toLegacyIgnored opts) in
  remote (ListInterfaces (ifaceClient_legacy s) ctx ign).

Definition ifaceClient_Create (c : loc) (ctx : context_Context) (iface : obj api.Interface) (opts : list CallOption)
  : M (Reply api.Interface) :=
  let! s := load_ifaceClient c in
  let! ign := eval (toLegacyIgnored opts) in
  remote (CreateInterface (ifaceClient_legacy s) ctx iface ign).

Definition ifaceClient_Delete (c : loc) (ctx : context_Context) (id : string) (opts : list CallOption)
  : M (Reply api.Interface) :=
  let! s := load_ifaceClient c in
  let! ign := eval (toLegacyIgnored opts) in
  remote (DeleteInterface (ifaceClient_legacy s) ctx id ign).

(** *** Virtual IPs *)

Definition vipClient_Get (c : loc) (ctx : context_Context) (interfaceID : string) (opts : list CallOption)
  : M (Reply api.VirtualIP) :=
  let! s := load_vipClient c in
  let! ign := eval (toLegacyIgnored opts) in
  remote (GetVirtualIP (vipClient_legacy s) ctx interfaceID ign).

Definition vipClient_Create (c : loc) (ctx : context_Context) (vip : obj api.VirtualIP) (opts : list CallOption)
  : M (Reply api.VirtualIP) :=
  let! s := load_vipClient c in
  let! ign := eval (toLegacyIgnored opts) in
  remote (CreateVirtualIP (vipClient_legacy s) ctx vip ign).

Definition vipClient_Delete (c : loc) (ctx : context_Context) (interfaceID : string) (opts : list CallOption)
  : M (Reply api.VirtualIP) :=
  let! s := load_vipClient c in
  let! ign := eval (toLegacyIgnored opts) in
  remote (DeleteVirtualIP (vipClient_legacy s) ctx interfaceID ign).

(** *** Interface prefixes *)

Definition ifacePrefixesClient_List (c : loc) (ctx : context_Context) (interfaceID : string) (opts : list CallOption)
  : M (Reply api.PrefixList) :=
  let! s := load_ifacePrefixesClient c in
  let! ign := eval (toLegacyIgnored opts) in
  remote (ListPrefixes (ifacePrefixesClient_legacy s) ctx interfaceID ign).

Definition ifacePrefixesClient_Create (c : loc) (ctx : context_Context) (prefix : obj api.Prefix) (opts : list CallOption)
  : M (Reply api.Prefix) :=
  let! s := load_ifacePrefixesClient c in
  let! ign := eval (toLegacyIgnored opts) in
  remote (CreatePrefix (ifacePrefixesClient_legacy s) ctx prefix ign).

Definition ifacePrefixesClient_Delete (c : loc) (ctx : context_Context) (interfaceID : string) (prefix : netip_Prefix) (opts : list CallOption)
  : M (Reply api.Prefix) :=
  let! s := load_ifacePrefixesClient c in
  let! ign := eval (toLegacyIgnored opts) in
  remote (DeletePrefix (ifacePrefixesClient_legacy s) ctx interfaceID prefix ign).

(** *** Routes *)

Definition routeClient_List (c : loc) (ctx : context_Context) (vni : uint32) (opts : list CallOption)
  : M (Reply api.RouteList) :=
  let! s := load_routeClient c in
  let! ign := eval (toLegacyIgnored opts) in
  remote (ListRoutes (routeClient_legacy s) ctx vni ign).

Definition routeClient_Create (c : loc) (ctx : context_Context) (route : obj api.Route) (opts : list CallOption)
  : M (Reply api.Route) :=
  let! s := load_routeClient c in
  let! ign := eval (toLegacyIgnored opts) in
  remote (CreateRoute (routeClient_legacy s) ctx route ign).

Definition routeClient_Delete (c : loc) (ctx : context_Context) (vni : uint32) (prefix : netip_Prefix) (opts : list CallOption)
  : M (Reply api.Route) :=
  let! s := load_routeClient c in
  let! ign := eval (toLegacyIgnored opts) in
  remote (DeleteRoute (routeClient_legacy s) ctx vni prefix ign).

(** *** NATs *)

Definition natClient_Get (c : loc) (ctx : context_Context) (interfaceID : string) (opts : list CallOption)
  : M (Reply api.Nat) :=
  let! s := load_natClient c in
  let! ign := eval (toLegacyIgnored opts) in
  remote (GetNat (natClient_legacy s) ctx interfaceID ign).

Definition natClient_Create (c : loc) (ctx : context_Context) (nat : obj api.Nat) (opts : list CallOption)
  : M (Reply api.Nat) :=
  let! s := load_natClient c in
  let! ign := eval (toLegacyIgnored opts) in
  remote (CreateNat (natClient_legacy s) ctx nat ign).

Definition natClient_Delete (c : loc) (ctx : context_Context) (interfaceID : string) (opts : list CallOption)
  : M (Reply api.Nat) :=
  let! s := load_natClient c in
  let! ign := eval (toLegacyIgnored opts) in
  remote (DeleteNat (natClient_legacy s) ctx interfaceID ign).

Definition natClient_ListAny (c : loc) (ctx : context_Context) (natIP : netip_Addr) (opts : list CallOption)
  : M (Reply api.NatList) :=
  let! s := load_natClient c in
  let! ign := eval (toLegacyIgnored opts) in
  remote (ListNats (natClient_legacy s) ctx natIP "any" ign).

Definition natClient_ListLocal (c : loc) (ctx : context_Context) (natIP : netip_Addr) (opts : list CallOption)
  : M (Reply api.NatList) :=
  let! s := load_natClient c in
  let! ign := eval (toLegacyIgnored opts) in
  remote (ListLocalNats (natClient_legacy s) ctx natIP ign).

Definition natClient_ListNeighbors (c : loc) (ctx : context_Context) (natIP : netip_Addr) (opts : list CallOption)
  : M (Reply api.NatList) :=
  let! s := load_natClient c in
  let! ign := eval (toLegacyIgnored opts) in
  remote (ListNeighborNats (natClient_legacy s) ctx natIP ign).

Definition natClient_CreateNeighbor (c : loc) (ctx : context_Context) (n : obj api.NeighborNat) (opts : list CallOption)
  : M (Reply api.NeighborNat) :=
  let! s := load_natClient c in
  let! ign := eval (toLegacyIgnored opts) in
  remote (CreateNeighborNat (natClient_legacy s) ctx n ign).

Definition natClient_DeleteNeighbor (c : loc) (ctx : context_Context) (n : obj api.NeighborNat) (opts : list CallOption)
  : M (Reply api.NeighborNat) :=
  let! s := load_natClient c in
  let! ign := eval (toLegacyIgnored opts) in
  remote (DeleteNeighborNat (natClient_legacy s) ctx n ign).

(** *** Firewall *)

Definition fwClient_List (c : loc) (ctx : context_Context) (interfaceID : string) (opts : list CallOption)
  : M (Reply api.FirewallRuleList) :=
  let! s := load_fwClient c in
  let! ign := eval (toLegacyIgnored opts) in
  remote (ListFirewallRules (fwClient_legacy s) ctx interfaceID ign).

Definition fwClient_Get (c : loc) (ctx : context_Context) (interfaceID : string) (ruleID : string) (opts : list CallOption)
  : M (Reply api.FirewallRule) :=
  let! s := load_fwClient c in
  let! ign := eval (toLegacyIgnored opts) in
  remote (GetFirewallRule (fwClient_legacy s) ctx interfaceID ruleID ign).

Definition fwClient_Create (c : loc) (ctx : context_Context) (rule : obj api.FirewallRule) (opts : list CallOption)
  : M (Reply api.FirewallRule) :=
  let! s := load_fwClient c in
  let! ign := eval (toLegacyIgnored opts) in
  remote (CreateFirewallRule (fwClient_legacy s) ctx rule ign).

Definition fwClient_Delete (c : loc) (ctx : context_Context) (interfaceID : string) (ruleID : string) (opts : list CallOption)
  : M (Reply api.FirewallRule) :=
  let! s := load_fwClient c in
  let! ign := eval (toLegacyIgnored opts) in
  remote (DeleteFirewallRule (fwClient_legacy s) ctx interfaceID ruleID ign).

(** *** System *)

Definition systemClient_CheckInitialized (c : loc) (ctx : context_Context) (opts : list CallOption)
  : M (Reply api.Initialized) :=
  let! s := load_systemClient c in
  let! ign := eval (toLegacyIgnored opts) in
  remote (CheckInitialized (systemClient_legacy s) ctx ign).

Definition systemClient_Initialize (c : loc) (ctx : context_Context) (opts : list CallOption)
  : M (Reply api.Initialized) :=
  let! s := load_systemClient c in
  let! ign := eval (toLegacyIgnored opts) in
  remote (Initialize (systemClient_legacy s) ctx ign).

Definition systemClient_GetVni (c : loc) (ctx : context_Context) (vni : uint32) (vniType : uint8) (opts : list CallOption)
  : M (Reply api.Vni) :=
  let! s := load_systemClient c in
  let! ign := eval (toLegacyIgnored opts) in
  remote (GetVni (systemClient_legacy s) ctx vni vniType ign).

Definition systemClient_ResetVni (c : loc) (ctx : context_Context) (vni : uint32) (vniType : uint8) (opts : list CallOption)
  : M (Reply api.Vni) :=
  let! s := load_systemClient c in
  let! ign := eval (toLegacyIgnored opts) in
  remote (ResetVni (systemClient_legacy s) ctx vni vniType ign).

Definition systemClient_GetVersion (c : loc) (ctx : context_Context) (version : obj api.Version) (opts : list CallOption)
  : M (Reply api.Version) :=
  let! s := load_systemClient c in
  let! ign := eval (toLegacyIgnored opts) in
  remote (GetVersion (systemClient_legacy s) ctx version ign).

(** *** Capture *)

Definition captureClient_Start (c : loc) (ctx : context_Context) (capture : obj api.CaptureStart) (opts : list CallOption)
  : M (Reply api.CaptureStart) :=
  let! s := load_captureClient c in
  let! ign := eval (toLegacyIgnored opts) in
  remote (CaptureStart (captureClient_legacy s) ctx capture ign).

Definition captureClient_Stop (c : loc) (ctx : context_Context) (opts : list CallOption)
  : M (Reply api.CaptureStop) :=
  let! s := load_captureClient c in
  let! ign := eval (toLegacyIgnored opts) in
  remote (CaptureStop (captureClient_legacy s) ctx ign).

Definition captureClient_Status (c : loc) (ctx : context_Context) (opts : list CallOption)
  : M (Reply api.CaptureStatus) :=
  let! s := load_captureClient c in
  let! ign := eval (toLegacyIgnored opts) in
  remote (CaptureStatus (captureClient_legacy s) ctx ign).

(** ** The operations as data

    Every operation a handle interface declares, with its required
    parameters; the index is the payload it returns. *)
Inductive Op : api.t -> Type :=
| LoadBalancers_Get (id : string) : Op api.LoadBalancer
| LoadBalancers_List : Op api.LoadBalancerList
| LoadBalancers_Create (lb : obj api.LoadBalancer) : Op api.LoadBalancer
| LoadBalancers_Delete (id : string) : Op api.LoadBalancer
| LoadBalancerPrefixes_List (interfaceID : string) : Op api.PrefixList
| LoadBalancerPrefixes_Create (prefix : obj api.LoadBalancerPrefix) : Op api.LoadBalancerPrefix
| LoadBalancerPrefixes_Delete (interfaceID : string) (prefix : netip_Prefix) : Op api.LoadBalancerPrefix
| LoadBalancerTargets_List (loadBalancerID : string) : Op api.LoadBalancerTargetList
| LoadBalancerTargets_Create (target : obj api.LoadBalancerTarget) : Op api.LoadBalancerTarget
| LoadBalancerTargets_Delete (lbID : string) (targetIP : netip_Addr) : Op api.LoadBalancerTarget
| Interfaces_Get (id : string) : Op api.Interface
| Interfaces_List : Op api.InterfaceList
| Interfaces_Create (iface : obj api.Interface) : Op api.Interface
| Interfaces_Delete (id : string) : Op api.Interface
| VirtualIPs_Get (interfaceID : string) : Op api.VirtualIP
| VirtualIPs_Create (vip : obj api.VirtualIP) : Op api.VirtualIP
| VirtualIPs_Delete (interfaceID : string) : Op api.VirtualIP
| InterfacePrefixes_List (interfaceID : string) : Op api.PrefixList
| InterfacePrefixes_Create (prefix : obj api.Prefix) : Op api.Prefix
| InterfacePrefixes_Delete (interfaceID : string) (prefix : netip_Prefix) : Op api.Prefix
| Routes_List (vni : uint32) : Op api.RouteList
| Routes_Create (route : obj api.Route) : Op api.Route
| Routes_Delete (vni : uint32) (prefix : netip_Prefix) : Op api.Route
| NATs_Get (interfaceID : string) : Op api.Nat
| NATs_Create (nat : obj api.Nat) : Op api.Nat
| NATs_Delete (interfaceID : string) : Op api.Nat
| NATs_ListAny (natIP : netip_Addr) : Op api.NatList
| NATs_ListLocal (natIP : netip_Addr) : Op api.NatList
| NATs_ListNeighbors (natIP : netip_Addr) : Op api.NatList
| NATs_CreateNeighbor (n : obj api.NeighborNat) : Op api.NeighborNat
| NATs_DeleteNeighbor (n : obj api.NeighborNat) : Op api.NeighborNat
| Firewall_List (interfaceID : string) : Op api.FirewallRuleList
| Firewall_Get (interfaceID : string) (ruleID : string) : Op api.FirewallRule
| Firewall_Create (rule : obj api.FirewallRule) : Op api.FirewallRule
| Firewall_Delete (interfaceID : string) (ruleID : string) : Op api.FirewallRule
| System_CheckInitialized : Op api.Initialized
| System_Initialize : Op api.Initialized
| System_GetVni (vni : uint32) (vniType : uint8) : Op api.Vni
| System_ResetVni (vni : uint32) (vniType : uint8) : Op api.Vni
| System_GetVersion (version : obj api.Version) : Op api.Version
| Capture_Start (capture : obj api.CaptureStart) : Op api.CaptureStart
| Capture_Stop : Op api.CaptureStop
| Capture_Status : Op api.CaptureStatus.

(** An argument of a call, with its Go type erased. *)
Inductive Arg :=
| AString (s : string)
| AUint32 (n : uint32)
| AUint8 (n : uint8)
| APrefix (p : netip_Prefix)
| AAddr (a : netip_Addr)
| AObj (t : api.t) (x : obj t).

(** The required parameters of an operation, in declaration order. *)
Definition params {t} (op : Op t) : list Arg :=
  match op with
  | LoadBalancers_Get id => [AString id]
  | LoadBalancers_List => []
  | LoadBalancers_Create lb => [AObj api.LoadBalancer lb]
  | LoadBalancers_Delete id => [AString id]
  | LoadBalancerPrefixes_List interfaceID => [AString interfaceID]
  | LoadBalancerPrefixes_Create prefix => [AObj api.LoadBalancerPrefix prefix]
  | LoadBalancerPrefixes_Delete interfaceID prefix => [AString interfaceID; APrefix prefix]
  | LoadBalancerTargets_List loadBalancerID => [AString loadBalancerID]
  | LoadBalancerTargets_Create target => [AObj api.LoadBalancerTarget target]
  | LoadBalancerTargets_Delete lbID targetIP => [AString lbID; AAddr targetIP]
  | Interfaces_Get id => [AString id]
  | Interfaces_List => []
  | Interfaces_Create iface => [AObj api.Interface iface]
  | Interfaces_Delete id => [AString id]
  | VirtualIPs_Get interfaceID => [AString interfaceID]
  | VirtualIPs_Create vip => [AObj api.VirtualIP vip]
  | VirtualIPs_Delete interfaceID => [AString interfaceID]
  | InterfacePrefixes_List interfaceID => [AString interfaceID]
  | InterfacePrefixes_Create prefix => [AObj api.Prefix prefix]
  | InterfacePrefixes_Delete interfaceID prefix => [AString interfaceID; APrefix prefix]
  | Routes_List vni => [AUint32 vni]
  | Routes_Create route => [AObj api.Route route]
  | Routes_Delete vni prefix => [AUint32 vni; APrefix prefix]
  | NATs_Get interfaceID => [AString interfaceID]
  | NATs_Create nat => [AObj api.Nat nat]
  | NATs_Delete interfaceID => [AString interfaceID]
  | NATs_ListAny natIP => [AAddr natIP]
  | NATs_ListLocal natIP => [AAddr natIP]
  | NATs_ListNeighbors natIP => [AAddr natIP]
  | NATs_CreateNeighbor n => [AObj api.NeighborNat n]
  | NATs_DeleteNeighbor n => [AObj api.NeighborNat n]
  | Firewall_List interfaceID => [AString interfaceID]
  | Firewall_Get interfaceID ruleID => [AString interfaceID; AString ruleID]
  | Firewall_Create rule => [AObj api.FirewallRule rule]
  | Firewall_Delete interfaceID ruleID => [AString interfaceID; AString ruleID]
  | System_CheckInitialized => []
  | System_Initialize => []
  | System_GetVni vni vniType => [AUint32 vni; AUint8 vniType]
  | System_ResetVni vni vniType => [AUint32 vni; AUint8 vniType]
  | System_GetVersion version => [AObj api.Version version]
  | Capture_Start capture => [AObj api.CaptureStart capture]
  | Capture_Stop => []
  | Capture_Status => []
  end.

(** The legacy method that corresponds to an operation. *)
Definition target {t} (op : Op t) : method.t :=
  match op with
  | LoadBalancers_Get _ => method.GetLoadBalancer
  | LoadBalancers_List => method.ListLoadBalancers
  | LoadBalancers_Create _ => method.CreateLoadBalancer
  | LoadBalancers_Delete _ => method.DeleteLoadBalancer
  | LoadBalancerPrefixes_List _ => method.ListLoadBalancerPrefixes
  | LoadBalancerPrefixes_Create _ => method.CreateLoadBalancerPrefix
  | LoadBalancerPrefixes_Delete _ _ => method.DeleteLoadBalancerPrefix
  | LoadBalancerTargets_List _ => method.ListLoadBalancerTargets
  | LoadBalancerTargets_Create _ => method.CreateLoadBalancerTarget
  | LoadBalancerTargets_Delete _ _ => method.DeleteLoadBalancerTarget
  | Interfaces_Get _ => method.GetInterface
  | Interfaces_List => method.ListInterfaces
  | Interfaces_Create _ => method.CreateInterface
  | Interfaces_Delete _ => method.DeleteInterface
  | VirtualIPs_Get _ => method.GetVirtualIP
  | VirtualIPs_Create _ => method.CreateVirtualIP
  | VirtualIPs_Delete _ => method.DeleteVirtualIP
  | InterfacePrefixes_List _ => method.ListPrefixes
  | InterfacePrefixes_Create _ => method.CreatePrefix
  | InterfacePrefixes_Delete _ _ => method.DeletePrefix
  | Routes_List _ => method.ListRoutes
  | Routes_Create _ => method.CreateRoute
  | Routes_Delete _ _ => method.DeleteRoute
  | NATs_Get _ => method.GetNat
  | NATs_Create _ => method.CreateNat
  | NATs_Delete _ => method.DeleteNat
  | NATs_ListAny _ => method.ListNats
  | NATs_ListLocal _ => method.ListLocalNats
  | NATs_ListNeighbors _ => method.ListNeighborNats
  | NATs_CreateNeighbor _ => method.CreateNeighborNat
  | NATs_DeleteNeighbor _ => method.DeleteNeighborNat
  | Firewall_List _ => method.ListFirewallRules
  | Firewall_Get _ _ => method.GetFirewallRule
  | Firewall_Create _ => method.CreateFirewallRule
  | Firewall_Delete _ _ => method.DeleteFirewallRule
  | System_CheckInitialized => method.CheckInitialized
  | System_Initialize => method.Initialize
  | System_GetVni _ _ => method.GetVni
  | System_ResetVni _ _ => method.ResetVni
  | System_GetVersion _ => method.GetVersion
  | Capture_Start _ => method.CaptureStart
  | Capture_Stop => method.CaptureStop
  | Capture_Status => method.CaptureStatus
  end.

(** The arguments an operation fixes itself: [ListAny] selects the NAT
    type ["any"] of [ListNats]. *)
Definition fixed_args {t} (op : Op t) : list Arg :=
  match op with
  | NATs_ListAny _ => [AString "any"]
  | _ => []
  end.

(** The struct types, as tags. *)
Inductive HandleType :=
| T_rootAdapter
| T_lbClient
| T_lbPrefixesClient
| T_lbTargetsClient
| T_ifaceClient
| T_vipClient
| T_ifacePrefixesClient
| T_routeClient
| T_natClient
| T_fwClient
| T_systemClient
| T_captureClient.

Definition handle_obj (k : HandleType) (c : LegacyClient) : Obj :=
  match k with
  | T_rootAdapter => O_rootAdapter {| rootAdapter_legacy := c |}
  | T_lbClient => O_lbClient {| lbClient_legacy := c |}
  | T_lbPrefixesClient => O_lbPrefixesClient {| lbPrefixesClient_legacy := c |}
  | T_lbTargetsClient => O_lbTargetsClient {| lbTargetsClient_legacy := c |}
  | T_ifaceClient => O_ifaceClient {| ifaceClient_legacy := c |}
  | T_vipClient => O_vipClient {| vipClient_legacy := c |}
  | T_ifacePrefixesClient => O_ifacePrefixesClient {| ifacePrefixesClient_legacy := c |}
  | T_routeClient => O_routeClient {| routeClient_legacy := c |}
  | T_natClient => O_natClient {| natClient_legacy := c |}
  | T_fwClient => O_fwClient {| fwClient_legacy := c |}
  | T_systemClient => O_systemClient {| systemClient_legacy := c |}
  | T_captureClient => O_captureClient {| captureClient_legacy := c |}
  end.

Definition type_of (o : Obj) : HandleType :=
  match o with
  | O_rootAdapter _ => T_rootAdapter
  | O_lbClient _ => T_lbClient
  | O_lbPrefixesClient _ => T_lbPrefixesClient
  | O_lbTargetsClient _ => T_lbTargetsClient
  | O_ifaceClient _ => T_ifaceClient
  | O_vipClient _ => T_vipClient
  | O_ifacePrefixesClient _ => T_ifacePrefixesClient
  | O_routeClient _ => T_routeClient
  | O_natClient _ => T_natClient
  | O_fwClient _ => T_fwClient
  | O_systemClient _ => T_systemClient
  | O_captureClient _ => T_captureClient
  end.

Definition legacy_of (o : Obj) : LegacyClient :=
  match o with
  | O_rootAdapter s => rootAdapter_legacy s
  | O_lbClient s => lbClient_legacy s
  | O_lbPrefixesClient s => lbPrefixesClient_legacy s
  | O_lbTargetsClient s => lbTargetsClient_legacy s
  | O_ifaceClient s => ifaceClient_legacy s
  | O_vipClient s => vipClient_legacy s
  | O_ifacePrefixesClient s => ifacePrefixesClient_legacy s
  | O_routeClient s => routeClient_legacy s
  | O_natClient s => natClient_legacy s
  | O_fwClient s => fwClient_legacy s
  | O_systemClient s => systemClient_legacy s
  | O_captureClient s => captureClient_legacy s
  end.

(** The struct that implements the interface declaring an operation. *)
Definition owner {t} (op : Op t) : HandleType :=
  match op with
  | LoadBalancers_Get _ => T_lbClient
  | LoadBalancers_List => T_lbClient
  | LoadBalancers_Create _ => T_lbClient
  | LoadBalancers_Delete _ => T_lbClient
  | LoadBalancerPrefixes_List _ => T_lbPrefixesClient
  | LoadBalancerPrefixes_Create _ => T_lbPrefixesClient
  | LoadBalancerPrefixes_Delete _ _ => T_lbPrefixesClient
  | LoadBalancerTargets_List _ => T_lbTargetsClient
  | LoadBalancerTargets_Create _ => T_lbTargetsClient
  | LoadBalancerTargets_Delete _ _ => T_lbTargetsClient
  | Interfaces_Get _ => T_ifaceClient
  | Interfaces_List => T_ifaceClient
  | Interfaces_Create _ => T_ifaceClient
  | Interfaces_Delete _ => T_ifaceClient
  | VirtualIPs_Get _ => T_vipClient
  | VirtualIPs_Create _ => T_vipClient
  | VirtualIPs_Delete _ => T_vipClient
  | InterfacePrefixes_List _ => T_ifacePrefixesClient
  | InterfacePrefixes_Create _ => T_ifacePrefixesClient
  | InterfacePrefixes_Delete _ _ => T_ifacePrefixesClient
  | Routes_List _ => T_routeClient
  | Routes_Create _ => T_routeClient
  | Routes_Delete _ _ => T_routeClient
  | NATs_Get _ => T_natClient
  | NATs_Create _ => T_natClient
  | NATs_Delete _ => T_natClient
  | NATs_ListAny _ => T_natClient
  | NATs_ListLocal _ => T_natClient
  | NATs_ListNeighbors _ => T_natClient
  | NATs_CreateNeighbor _ => T_natClient
  | NATs_DeleteNeighbor _ => T_natClient
  | Firewall_List _ => T_fwClient
  | Firewall_Get _ _ => T_fwClient
  | Firewall_Create _ => T_fwClient
  | Firewall_Delete _ _ => T_fwClient
  | System_CheckInitialized => T_systemClient
  | System_Initialize => T_systemClient
  | System_GetVni _ _ => T_systemClient
  | System_ResetVni _ _ => T_systemClient
  | System_GetVersion _ => T_systemClient
  | Capture_Start _ => T_captureClient
  | Capture_Stop => T_captureClient
  | Capture_Status => T_captureClient
  end.

(** Invoking an operation on the handle at [h]. *)
Definition perform {t} (op : Op t) (h : loc) (ctx : context_Context)
  (opts : list CallOption) : M (Reply t) :=
  match op with
  | LoadBalancers_Get id => lbClient_Get h ctx id opts
  | LoadBalancers_List => lbClient_List h ctx opts
  | LoadBalancers_Create lb => lbClient_Create h ctx lb opts
  | LoadBalancers_Delete id => lbClient_Delete h ctx id opts
  | LoadBalancerPrefixes_List interfaceID => lbPrefixesClient_List h ctx interfaceID opts
  | LoadBalancerPrefixes_Create prefix => lbPrefixesClient_Create h ctx prefix opts
  | LoadBalancerPrefixes_Delete interfaceID prefix => lbPrefixesClient_Delete h ctx interfaceID prefix opts
  | LoadBalancerTargets_List loadBalancerID => lbTargetsClient_List h ctx loadBalancerID opts
  | LoadBalancerTargets_Create target => lbTargetsClient_Create h ctx target opts
  | LoadBalancerTargets_Delete lbID targetIP => lbTargetsClient_Delete h ctx lbID targetIP opts
  | Interfaces_Get id => ifaceClient_Get h ctx id opts
  | Interfaces_List => ifaceClient_List h ctx opts
  | Interfaces_Create iface => ifaceClient_Create h ctx iface opts
  | Interfaces_Delete id => ifaceClient_Delete h ctx id opts
  | VirtualIPs_Get interfaceID => vipClient_Get h ctx interfaceID opts
  | VirtualIPs_Create vip => vipClient_Create h ctx vip opts
  | VirtualIPs_Delete interfaceID => vipClient_Delete h ctx interfaceID opts
  | InterfacePrefixes_List interfaceID => ifacePrefixesClient_List h ctx interfaceID opts
  | InterfacePrefixes_Create prefix => ifacePrefixesClient_Create h ctx prefix opts
  | InterfacePrefixes_Delete interfaceID prefix => ifacePrefixesClient_Delete h ctx interfaceID prefix opts
  | Routes_List vni => routeClient_List h ctx vni opts
  | Routes_Create route => routeClient_Create h ctx route opts
  | Routes_Delete vni prefix => routeClient_Delete h ctx vni prefix opts
  | NATs_Get interfaceID => natClient_Get h ctx interfaceID opts
  | NATs_Create nat => natClient_Create h ctx nat opts
  | NATs_Delete interfaceID => natClient_Delete h ctx interfaceID opts
  | NATs_ListAny natIP => natClient_ListAny h ctx natIP opts
  | NATs_ListLocal natIP => natClient_ListLocal h ctx natIP opts
  | NATs_ListNeighbors natIP => natClient_ListNeighbors h ctx natIP opts
  | NATs_CreateNeighbor n => natClient_CreateNeighbor h ctx n opts
  | NATs_DeleteNeighbor n => natClient_DeleteNeighbor h ctx n opts
  | Firewall_List interfaceID => fwClient_List h ctx interfaceID opts
  | Firewall_Get interfaceID ruleID => fwClient_Get h ctx interfaceID ruleID opts
  | Firewall_Create rule => fwClient_Create h ctx rule opts
  | Firewall_Delete interfaceID ruleID => fwClient_Delete h ctx interfaceID ruleID opts
  | System_CheckInitialized => systemClient_CheckInitialized h ctx opts
  | System_Initialize => systemClient_Initialize h ctx opts
  | System_GetVni vni vniType => systemClient_GetVni h ctx vni vniType opts
  | System_ResetVni vni vniType => systemClient_ResetVni h ctx vni vniType opts
  | System_GetVersion version => systemClient_GetVersion h ctx version opts
  | Capture_Start capture => captureClient_Start h ctx capture opts
  | Capture_Stop => captureClient_Stop h ctx opts
  | Capture_Status => captureClient_Status h ctx opts
  end.

(** Calling the corresponding legacy method directly. *)
Definition legacy_method {t} (c : LegacyClient) (op : Op t)
  (ctx : context_Context) (ign : Ignored) : Remote (Reply t) :=
  match op with
  | LoadBalancers_Get id => GetLoadBalancer c ctx id ign
  | LoadBalancers_List => ListLoadBalancers c ctx ign
  | LoadBalancers_Create lb => CreateLoadBalancer c ctx lb ign
  | LoadBalancers_Delete id => DeleteLoadBalancer c ctx id ign
  | LoadBalancerPrefixes_List interfaceID => ListLoadBalancerPrefixes c ctx interfaceID ign
  | LoadBalancerPrefixes_Create prefix => CreateLoadBalancerPrefix c ctx prefix ign
  | LoadBalancerPrefixes_Delete interfaceID prefix => DeleteLoadBalancerPrefix c ctx interfaceID prefix ign
  | LoadBalancerTargets_List loadBalancerID => ListLoadBalancerTargets c ctx loadBalancerID ign
  | LoadBalancerTargets_Create target => CreateLoadBalancerTarget c ctx target ign
  | LoadBalancerTargets_Delete lbID targetIP => DeleteLoadBalancerTarget c ctx lbID targetIP ign
  | Interfaces_Get id => GetInterface c ctx id ign
  | Interfaces_List => ListInterfaces c ctx ign
  | Interfaces_Create iface => CreateInterface c ctx iface ign
  | Interfaces_Delete id => DeleteInterface c ctx id ign
  | VirtualIPs_Get interfaceID => GetVirtualIP c ctx interfaceID ign
  | VirtualIPs_Create vip => CreateVirtualIP c ctx vip ign
  | VirtualIPs_Delete interfaceID => DeleteVirtualIP c ctx interfaceID ign
  | InterfacePrefixes_List interfaceID => ListPrefixes c ctx interfaceID ign
  | InterfacePrefixes_Create prefix => CreatePrefix c ctx prefix ign
  | InterfacePrefixes_Delete interfaceID prefix => DeletePrefix c ctx interfaceID prefix ign
  | Routes_List vni => ListRoutes c ctx vni ign
  | Routes_Create route => CreateRoute c ctx route ign
  | Routes_Delete vni prefix => DeleteRoute c ctx vni prefix ign
  | NATs_Get interfaceID => GetNat c ctx interfaceID ign
  | NATs_Create nat => CreateNat c ctx nat ign
  | NATs_Delete interfaceID => DeleteNat c ctx interfaceID ign
  | NATs_ListAny natIP => ListNats c ctx natIP "any" ign
  | NATs_ListLocal natIP => ListLocalNats c ctx natIP ign
  | NATs_ListNeighbors natIP => ListNeighborNats c ctx natIP ign
  | NATs_CreateNeighbor n => CreateNeighborNat c ctx n ign
  | NATs_DeleteNeighbor n => DeleteNeighborNat c ctx n ign
  | Firewall_List interfaceID => ListFirewallRules c ctx interfaceID ign
  | Firewall_Get interfaceID ruleID => GetFirewallRule c ctx interfaceID ruleID ign
  | Firewall_Create rule => CreateFirewallRule c ctx rule ign
  | Firewall_Delete interfaceID ruleID => DeleteFirewallRule c ctx interfaceID ruleID ign
  | System_CheckInitialized => CheckInitialized c ctx ign
  | System_Initialize => Initialize c ctx ign
  | System_GetVni vni vniType => GetVni c ctx vni vniType ign
  | System_ResetVni vni vniType => ResetVni c ctx vni vniType ign
  | System_GetVersion version => GetVersion c ctx version ign
  | Capture_Start capture => CaptureStart c ctx capture ign
  | Capture_Stop => CaptureStop c ctx ign
  | Capture_Status => CaptureStatus c ctx ign
  end.

(** The accessors as data. *)
Inductive Accessor :=
| Client_LoadBalancers_acc
| Client_Interfaces_acc
| Client_Routes_acc
| Client_NATs_acc
| Client_Firewall_acc
| Client_System_acc
| Client_Capture_acc
| LoadBalancers_Prefixes_acc
| LoadBalancers_Targets_acc
| Interfaces_VIP_acc
| Interfaces_Prefixes_acc
| Interfaces_Firewall_acc.

Definition receiver (a : Accessor) : HandleType :=
  match a with
  | Client_LoadBalancers_acc => T_rootAdapter
  | Client_Interfaces_acc => T_rootAdapter
  | Client_Routes_acc => T_rootAdapter
  | Client_NATs_acc => T_rootAdapter
  | Client_Firewall_acc => T_rootAdapter
  | Client_System_acc => T_rootAdapter
  | Client_Capture_acc => T_rootAdapter
  | LoadBalancers_Prefixes_acc => T_lbClient
  | LoadBalancers_Targets_acc => T_lbClient
  | Interfaces_VIP_acc => T_ifaceClient
  | Interfaces_Prefixes_acc => T_ifaceClient
  | Interfaces_Firewall_acc => T_ifaceClient
  end.

Definition yields (a : Accessor) : HandleType :=
  match a with
  | Client_LoadBalancers_acc => T_lbClient
  | Client_Interfaces_acc => T_ifaceClient
  | Client_Routes_acc => T_routeClient
  | Client_NATs_acc => T_natClient
  | Client_Firewall_acc => T_fwClient
  | Client_System_acc => T_systemClient
  | Client_Capture_acc => T_captureClient
  | LoadBalancers_Prefixes_acc => T_lbPrefixesClient
  | LoadBalancers_Targets_acc => T_lbTargetsClient
  | Interfaces_VIP_acc => T_vipClient
  | Interfaces_Prefixes_acc => T_ifacePrefixesClient
  | Interfaces_Firewall_acc => T_fwClient
  end.

Definition navigate (a : Accessor) (h : loc) : M loc :=
  match a with
  | Client_LoadBalancers_acc => rootAdapter_LoadBalancers h
  | Client_Interfaces_acc => rootAdapter_Interfaces h
  | Client_Routes_acc => rootAdapter_Routes h
  | Client_NATs_acc => rootAdapter_NATs h
  | Client_Firewall_acc => rootAdapter_Firewall h
  | Client_System_acc => rootAdapter_System h
  | Client_Capture_acc => rootAdapter_Capture h
  | LoadBalancers_Prefixes_acc => lbClient_Prefixes h
  | LoadBalancers_Targets_acc => lbClient_Targets h
  | Interfaces_VIP_acc => ifaceClient_VIP h
  | Interfaces_Prefixes_acc => ifaceClient_Prefixes h
  | Interfaces_Firewall_acc => ifaceClient_Firewall h
  end.

(** Calling an accessor [S n] times on the same receiver and keeping the
    handle of the last call. *)
Fixpoint navigate_again (n : nat) (a : Accessor) (h : loc) : M loc :=
  match n with
  | O => navigate a h
  | S n' => let! _ := navigate a h in navigate_again n' a h
  end.

(** Following a chain of accessors from a handle. *)
Fixpoint follow (path : list Accessor) (h : loc) : M loc :=
  match path with
  | [] => ret h
  | a :: rest => let! h' := navigate a h in follow rest h'
  end.

(** What a caller can observe of a run: the returned value and the state
    of the outside world, not the addresses of the handles. *)
Definition observe {A} (r : option (A * Machine)) : option (A * W) :=
  match r with
  | Some (a, m) => Some (a, world m)
  | None => None
  end.

(** What a client program does with the facade, one step at a time. *)
Inductive Action :=
| DoNewFromProto (NewClient : DPDKironcoreClient -> LegacyClient) (rpc : DPDKironcoreClient)
| DoAsV2 (c : LegacyClient)
| DoNavigate (a : Accessor) (h : loc)
| DoPerform {t} (op : Op t) (h : loc) (ctx : context_Context) (opts : list CallOption).

Definition exec (act : Action) : M unit :=
  match act with
  | DoNewFromProto NewClient rpc => let! _ := NewFromProto NewClient rpc in ret tt
  | DoAsV2 c => let! _ := AsV2 c in ret tt
  | DoNavigate a h => let! _ := navigate a h in ret tt
  | DoPerform op h ctx opts => let! _ := perform op h ctx opts in ret tt
  end.

(** [derived m0 root m h]: in a run that starts in [m0] and has reached
    [m], the handle [h] was obtained from [root] through a chain of
    accessor calls, interleaved with any other use of the facade. *)
Inductive derived (m0 : Machine) (root : loc) : Machine -> loc -> Prop :=
| derived_root : derived m0 root m0 root
| derived_navigate m h a h' m' :
    derived m0 root m h ->
    navigate a h m = Some (h', m') ->
    derived m0 root m' h'
| derived_exec m h act m' :
    derived m0 root m h ->
    exec act m = Some (tt, m') ->
    derived m0 root m' h.

End Facade.

Arguments LegacyClient {F} W.
Arguments Machine {F} W.
Arguments Obj {F} W.
Arguments M {F} W A.
Arguments Remote W A : clear implicits.

(** ** A recording legacy client

    [recording c] behaves as [c] and appends every call it receives to a
    log kept next to the state of the world. *)

Record CallRecord `{Foreign} := {
  rec_method : method.t;
  rec_ctx : context_Context;
  rec_args : list Arg;
  rec_ignored : slice (slice uint32)
}.

Section Recording.
Context {F : Foreign} {W : Type}.

Definition logged {A} (r : CallRecord) (f : W -> A * W)
  : W * list CallRecord -> A * (W * list CallRecord) :=
  fun '(w, log) =>
    let (a, w') := f w in
    (a, (w', log ++ [r])).

Definition recording (c : LegacyClient W) : LegacyClient (W * list CallRecord) := {|
  GetLoadBalancer := fun ctx id ign =>
    logged {| rec_method := method.GetLoadBalancer; rec_ctx := ctx;
              rec_args := [AString id]; rec_ignored := ign |}
           (GetLoadBalancer c ctx id ign);
  ListLoadBalancers := fun ctx ign =>
    logged {| rec_method := method.ListLoadBalancers; rec_ctx := ctx;
              rec_args := []; rec_ignored := ign |}
           (ListLoadBalancers c ctx ign);
  CreateLoadBalancer := fun ctx lb ign =>
    logged {| rec_method := method.CreateLoadBalancer; rec_ctx := ctx;
              rec_args := [AObj api.LoadBalancer lb]; rec_ignored := ign |}
           (CreateLoadBalancer c ctx lb ign);
  DeleteLoadBalancer := fun ctx id ign =>
    logged {| rec_method := method.DeleteLoadBalancer; rec_ctx := ctx;
              rec_args := [AString id]; rec_ignored := ign |}
           (DeleteLoadBalancer c ctx id ign);
  ListLoadBalancerPrefixes := fun ctx interfaceID ign =>
    logged {| rec_method := method.ListLoadBalancerPrefixes; rec_ctx := ctx;
              rec_args := [AString interfaceID]; rec_ignored := ign |}
           (ListLoadBalancerPrefixes c ctx interfaceID ign);
  CreateLoadBalancerPrefix := fun ctx prefix ign =>
    logged {| rec_method := method.CreateLoadBalancerPrefix; rec_ctx := ctx;
              rec_args := [AObj api.LoadBalancerPrefix prefix]; rec_ignored := ign |}
           (CreateLoadBalancerPrefix c ctx prefix ign);
  DeleteLoadBalancerPrefix := fun ctx interfaceID prefix ign =>
    logged {| rec_method := method.DeleteLoadBalancerPrefix; rec_ctx := ctx;
              rec_args := [AString interfaceID; APrefix prefix]; rec_ignored := ign |}
           (DeleteLoadBalancerPrefix c ctx interfaceID prefix ign);
  ListLoadBalancerTargets := fun ctx loadBalancerID ign =>
    logged {| rec_method := method.ListLoadBalancerTargets; rec_ctx := ctx;
              rec_args := [AString loadBalancerID]; rec_ignored := ign |}
           (ListLoadBalancerTargets c ctx loadBalancerID ign);
  CreateLoadBalancerTarget := fun ctx target ign =>
    logged {| rec_method := method.CreateLoadBalancerTarget; rec_ctx := ctx;
              rec_args := [AObj api.LoadBalancerTarget target]; rec_ignored := ign |}
           (CreateLoadBalancerTarget c ctx target ign);
  DeleteLoadBalancerTarget := fun ctx lbID targetIP ign =>
    logged {| rec_method := method.DeleteLoadBalancerTarget; rec_ctx := ctx;
              rec_args := [AString lbID; AAddr targetIP]; rec_ignored := ign |}
           (DeleteLoadBalancerTarget c ctx lbID targetIP ign);
  GetInterface := fun ctx id ign =>
    logged {| rec_method := method.GetInterface; rec_ctx := ctx;
              rec_args := [AString id]; rec_ignored := ign |}
           (GetInterface c ctx id ign);
  ListInterfaces := fun ctx ign =>
    logged {| rec_method := method.ListInterfaces; rec_ctx := ctx;
              rec_args := []; rec_ignored := ign |}
           (ListInterfaces c ctx ign);
  CreateInterface := fun ctx iface ign =>
    logged {| rec_method := method.CreateInterface; rec_ctx := ctx;
              rec_args := [AObj api.Interface iface]; rec_ignored := ign |}
           (CreateInterface c ctx iface ign);
  DeleteInterface := fun ctx id ign =>
    logged {| rec_method := method.DeleteInterface; rec_ctx := ctx;
              rec_args := [AString id]; rec_ignored := ign |}
           (DeleteInterface c ctx id ign);
  GetVirtualIP := fun ctx interfaceID ign =>
    logged {| rec_method := method.GetVirtualIP; rec_ctx := ctx;
              rec_args := [AString interfaceID]; rec_ignored := ign |}
           (GetVirtualIP c ctx interfaceID ign);
  CreateVirtualIP := fun ctx vip ign =>
    logged {| rec_method := method.CreateVirtualIP; rec_ctx := ctx;
              rec_args := [AObj api.VirtualIP vip]; rec_ignored := ign |}
           (CreateVirtualIP c ctx vip ign);
  DeleteVirtualIP := fun ctx interfaceID ign =>
    logged {| rec_method := method.DeleteVirtualIP; rec_ctx := ctx;
              rec_args := [AString interfaceID]; rec_ignored := ign |}
           (DeleteVirtualIP c ctx interfaceID ign);
  ListPrefixes := fun ctx interfaceID ign =>
    logged {| rec_method := method.ListPrefixes; rec_ctx := ctx;
              rec_args := [AString interfaceID]; rec_ignored := ign |}
           (ListPrefixes c ctx interfaceID ign);
  CreatePrefix := fun ctx prefix ign =>
    logged {| rec_method := method.CreatePrefix; rec_ctx := ctx;
              rec_args := [AObj api.Prefix prefix]; rec_ignored := ign |}
           (CreatePrefix c ctx prefix ign);
  DeletePrefix := fun ctx interfaceID prefix ign =>
    logged {| rec_method := method.DeletePrefix; rec_ctx := ctx;
              rec_args := [AString interfaceID; APrefix prefix]; rec_ignored := ign |}
           (DeletePrefix c ctx interfaceID prefix ign);
  ListRoutes := fun ctx vni ign =>
    logged {| rec_method := method.ListRoutes; rec_ctx := ctx;
              rec_args := [AUint32 vni]; rec_ignored := ign |}
           (ListRoutes c ctx vni ign);
  CreateRoute := fun ctx route ign =>
    logged {| rec_method := method.CreateRoute; rec_ctx := ctx;
              rec_args := [AObj api.Route route]; rec_ignored := ign |}
           (CreateRoute c ctx route ign);
  DeleteRoute := fun ctx vni prefix ign =>
    logged {| rec_method := method.DeleteRoute; rec_ctx := ctx;
              rec_args := [AUint32 vni; APrefix prefix]; rec_ignored := ign |}
           (DeleteRoute c ctx vni prefix ign);
  GetNat := fun ctx interfaceID ign =>
    logged {| rec_method := method.GetNat; rec_ctx := ctx;
              rec_args := [AString interfaceID]; rec_ignored := ign |}
           (GetNat c ctx interfaceID ign);
  CreateNat := fun ctx nat ign =>
    logged {| rec_method := method.CreateNat; rec_ctx := ctx;
              rec_args := [AObj api.Nat nat]; rec_ignored := ign |}
           (CreateNat c ctx nat ign);
  DeleteNat := fun ctx interfaceID ign =>
    logged {| rec_method := method.DeleteNat; rec_ctx := ctx;
              rec_args := [AString interfaceID]; rec_ignored := ign |}
           (DeleteNat c ctx interfaceID ign);
  ListNats := fun ctx natIP natType ign =>
    logged {| rec_method := method.ListNats; rec_ctx := ctx;
              rec_args := [AAddr natIP; AString natType]; rec_ignored := ign |}
           (ListNats c ctx natIP natType ign);
  ListLocalNats := fun ctx natIP ign =>
    logged {| rec_method := method.ListLocalNats; rec_ctx := ctx;
              rec_args := [AAddr natIP]; rec_ignored := ign |}
           (ListLocalNats c ctx natIP ign);
  ListNeighborNats := fun ctx natIP ign =>
    logged {| rec_method := method.ListNeighborNats; rec_ctx := ctx;
              rec_args := [AAddr natIP]; rec_ignored := ign |}
           (ListNeighborNats c ctx natIP ign);
  CreateNeighborNat := fun ctx n ign =>
    logged {| rec_method := method.CreateNeighborNat; rec_ctx := ctx;
              rec_args := [AObj api.NeighborNat n]; rec_ignored := ign |}
           (CreateNeighborNat c ctx n ign);
  DeleteNeighborNat := fun ctx n ign =>
    logged {| rec_method := method.DeleteNeighborNat; rec_ctx := ctx;
              rec_args := [AObj api.NeighborNat n]; rec_ignored := ign |}
           (DeleteNeighborNat c ctx n ign);
  ListFirewallRules := fun ctx interfaceID ign =>
    logged {| rec_method := method.ListFirewallRules; rec_ctx := ctx;
              rec_args := [AString interfaceID]; rec_ignored := ign |}
           (ListFirewallRules c ctx interfaceID ign);
  GetFirewallRule := fun ctx interfaceID ruleID ign =>
    logged {| rec_method := method.GetFirewallRule; rec_ctx := ctx;
              rec_args := [AString interfaceID; AString ruleID]; rec_ignored := ign |}
           (GetFirewallRule c ctx interfaceID ruleID ign);
  CreateFirewallRule := fun ctx rule ign =>
    logged {| rec_method := method.CreateFirewallRule; rec_ctx := ctx;
              rec_args := [AObj api.FirewallRule rule]; rec_ignored := ign |}
           (CreateFirewallRule c ctx rule ign);
  DeleteFirewallRule := fun ctx interfaceID ruleID ign =>
    logged {| rec_method := method.DeleteFirewallRule; rec_ctx := ctx;
              rec_args := [AString interfaceID; AString ruleID]; rec_ignored := ign |}
           (DeleteFirewallRule c ctx interfaceID ruleID ign);
  CheckInitialized := fun ctx ign =>
    logged {| rec_method := method.CheckInitialized; rec_ctx := ctx;
              rec_args := []; rec_ignored := ign |}
           (CheckInitialized c ctx ign);
  Initialize := fun ctx ign =>
    logged {| rec_method := method.Initialize; rec_ctx := ctx;
              rec_args := []; rec_ignored := ign |}
           (Initialize c ctx ign);
  GetVni := fun ctx vni vniType ign =>
    logged {| rec_method := method.GetVni; rec_ctx := ctx;
              rec_args := [AUint32 vni; AUint8 vniType]; rec_ignored := ign |}
           (GetVni c ctx vni vniType ign);
  ResetVni := fun ctx vni vniType ign =>
    logged {| rec_method := method.ResetVni; rec_ctx := ctx;
              rec_args := [AUint32 vni; AUint8 vniType]; rec_ignored := ign |}
           (ResetVni c ctx vni vniType ign);
  GetVersion := fun ctx version ign =>
    logged {| rec_method := method.GetVersion; rec_ctx := ctx;
              rec_args := [AObj api.Version version]; rec_ignored := ign |}
           (GetVersion c ctx version ign);
  CaptureStart := fun ctx capture ign =>
    logged {| rec_method := method.CaptureStart; rec_ctx := ctx;
              rec_args := [AObj api.CaptureStart capture]; rec_ignored := ign |}
           (CaptureStart c ctx capture ign);
  CaptureStop := fun ctx ign =>
    logged {| rec_method := method.CaptureStop; rec_ctx := ctx;
              rec_args := []; rec_ignored := ign |}
           (CaptureStop c ctx ign);
  CaptureStatus := fun ctx ign =>
    logged {| rec_method := method.CaptureStatus; rec_ctx := ctx;
              rec_args := []; rec_ignored := ign |}
           (CaptureStatus c ctx ign)
|}.

End Recording.

(** ** A stub legacy client

    Payloads, addresses and prefixes are labels, the context is the unit
    and an error is an optional message. The stub counts the requests it
    has served and answers each with the name of the method and no
    error. *)

#[local] Instance stub_types : Foreign := {|
  context_Context := unit;
  error := option string;
  netip_Prefix := string;
  netip_Addr := string;
  obj := fun _ => string;
  DPDKironcoreClient := unit
|}.

Definition served (t : api.t) (label : string) : Remote nat (Reply t) :=
  fun n => ((label, None), S n).

Definition stub : LegacyClient nat := {|
  GetLoadBalancer := fun _ _ _ => served api.LoadBalancer "GetLoadBalancer";
  ListLoadBalancers := fun _ _ => served api.LoadBalancerList "ListLoadBalancers";
  CreateLoadBalancer := fun _ _ _ => served api.LoadBalancer "CreateLoadBalancer";
  DeleteLoadBalancer := fun _ _ _ => served api.LoadBalancer "DeleteLoadBalancer";
  ListLoadBalancerPrefixes := fun _ _ _ => served api.PrefixList "ListLoadBalancerPrefixes";
  CreateLoadBalancerPrefix := fun _ _ _ => served api.LoadBalancerPrefix "CreateLoadBalancerPrefix";
  DeleteLoadBalancerPrefix := fun _ _ _ _ => served api.LoadBalancerPrefix "DeleteLoadBalancerPrefix";
  ListLoadBalancerTargets := fun _ _ _ => served api.LoadBalancerTargetList "ListLoadBalancerTargets";
  CreateLoadBalancerTarget := fun _ _ _ => served api.LoadBalancerTarget "CreateLoadBalancerTarget";
  DeleteLoadBalancerTarget := fun _ _ _ _ => served api.LoadBalancerTarget "DeleteLoadBalancerTarget";
  GetInterface := fun _ _ _ => served api.Interface "GetInterface";
  ListInterfaces := fun _ _ => served api.InterfaceList "ListInterfaces";
  CreateInterface := fun _ _ _ => served api.Interface "CreateInterface";
  DeleteInterface := fun _ _ _ => served api.Interface "DeleteInterface";
  GetVirtualIP := fun _ _ _ => served api.VirtualIP "GetVirtualIP";
  CreateVirtualIP := fun _ _ _ => served api.VirtualIP "CreateVirtualIP";
  DeleteVirtualIP := fun _ _ _ => served api.VirtualIP "DeleteVirtualIP";
  ListPrefixes := fun _ _ _ => served api.PrefixList "ListPrefixes";
  CreatePrefix := fun _ _ _ => served api.Prefix "CreatePrefix";
  DeletePrefix := fun _ _ _ _ => served api.Prefix "DeletePrefix";
  ListRoutes := fun _ _ _ => served api.RouteList "ListRoutes";
  CreateRoute := fun _ _ _ => served api.Route "CreateRoute";
  DeleteRoute := fun _ _ _ _ => served api.Route "DeleteRoute";
  GetNat := fun _ _ _ => served api.Nat "GetNat";
  CreateNat := fun _ _ _ => served api.Nat "CreateNat";
  DeleteNat := fun _ _ _ => served api.Nat "DeleteNat";
  ListNats := fun _ _ _ _ => served api.NatList "ListNats";
  ListLocalNats := fun _ _ _ => served api.NatList "ListLocalNats";
  ListNeighborNats := fun _ _ _ => served api.NatList "ListNeighborNats";
  CreateNeighborNat := fun _ _ _ => served api.NeighborNat "CreateNeighborNat";
  DeleteNeighborNat := fun _ _ _ => served api.NeighborNat "DeleteNeighborNat";
  ListFirewallRules := fun _ _ _ => served api.FirewallRuleList "ListFirewallRules";
  GetFirewallRule := fun _ _ _ _ => served api.FirewallRule "GetFirewallRule";
  CreateFirewallRule := fun _ _ _ => served api.FirewallRule "CreateFirewallRule";
  DeleteFirewallRule := fun _ _ _ _ => served api.FirewallRule "DeleteFirewallRule";
  CheckInitialized := fun _ _ => served api.Initialized "CheckInitialized";
  Initialize := fun _ _ => served api.Initialized "Initialize";
  GetVni := fun _ _ _ _ => served api.Vni "GetVni";
  ResetVni := fun _ _ _ _ => served api.Vni "ResetVni";
  GetVersion := fun _ _ _ => served api.Version "GetVersion";
  CaptureStart := fun _ _ _ => served api.CaptureStart "CaptureStart";
  CaptureStop := fun _ _ => served api.CaptureStop "CaptureStop";
  CaptureStatus := fun _ _ => served api.CaptureStatus "CaptureStatus"
|}.

(** ** Running facade programs *)

Notation "'let!' x ':=' c 'in' k" := (bind c (fun x => k))
  (at level 10, x name, c at level 100, k at level 200).

Create HintDb facade.
#[local] Hint Unfold
  lbClient_Get lbClient_List lbClient_Create lbClient_Delete
  lbPrefixesClient_List lbPrefixesClient_Create lbPrefixesClient_Delete
  lbTargetsClient_List lbTargetsClient_Create lbTargetsClient_Delete
  ifaceClient_Get ifaceClient_List ifaceClient_Create ifaceClient_Delete
  vipClient_Get vipClient_Create vipClient_Delete ifacePrefixesClient_List
  ifacePrefixesClient_Create ifacePrefixesClient_Delete routeClient_List
  routeClient_Create routeClient_Delete natClient_Get natClient_Create
  natClient_Delete natClient_ListAny natClient_ListLocal
  natClient_ListNeighbors natClient_CreateNeighbor
  natClient_DeleteNeighbor fwClient_List fwClient_Get fwClient_Create
  fwClient_Delete systemClient_CheckInitialized systemClient_Initialize
  systemClient_GetVni systemClient_ResetVni systemClient_GetVersion
  captureClient_Start captureClient_Stop captureClient_Status
  rootAdapter_LoadBalancers rootAdapter_Interfaces rootAdapter_Routes
  rootAdapter_NATs rootAdapter_Firewall rootAdapter_System
  rootAdapter_Capture lbClient_Prefixes lbClient_Targets ifaceClient_VIP
  ifaceClient_Prefixes ifaceClient_Firewall load_rootAdapter load_lbClient
  load_lbPrefixesClient load_lbTargetsClient load_ifaceClient
  load_vipClient load_ifacePrefixesClient load_routeClient load_natClient
  load_fwClient load_systemClient load_captureClient AsV2 NewFromProto new
  eval remote bind ret
  : facade.

(** Run a facade program symbolically: unfold it, then resolve each
    dereference and option conversion with the facts at hand. *)
Ltac run_facade :=
  autounfold with facade;
  repeat match goal with
         | H : ?x = Some _ |- context [?x] => rewrite H; cbn
         end.

(** ** What one forwarded call looks like to the recording client *)

Section Forwarding.
Context {F : Foreign} {W : Type}.

(** A handle over the recording wrapper of the client it holds. *)
Definition instrument_obj (o : Obj W) : Obj (W * list CallRecord) :=
  handle_obj (type_of o) (recording (legacy_of o)).

(** The machine [m] with every legacy client wrapped in a recorder, the
    calls recorded so far being [log]. *)
Definition instrument (log : list CallRecord) (m : Machine W)
  : Machine (W * list CallRecord) :=
  {| heap := instrument_obj <$> heap m; world := (world m, log) |}.

(** The call that passes the required parameters of [op] and nothing
    else besides the ignored-code groups. *)
Definition verbatim_call {t} (op : Op t) (ctx : context_Context)
  (ign : slice (slice uint32)) : CallRecord :=
  {| rec_method := target op; rec_ctx := ctx;
     rec_args := params op; rec_ignored := ign |}.

(** The call that passes the required parameters of [op] followed by the
    arguments [op] fixes itself. *)
Definition forwarded_call {t} (op : Op t) (ctx : context_Context)
  (ign : slice (slice uint32)) : CallRecord :=
  {| rec_method := target op; rec_ctx := ctx;
     rec_args := params op ++ fixed_args op; rec_ignored := ign |}.

(** Invoking [op] on the handle at [h], which holds the client [c]:
    the options convert to [ign] without a panic; the operation returns
    what the corresponding method of [c] returns in the current state of
    the world and leaves the world as that method leaves it and the heap
    as it was; and with the clients wrapped in recorders the same run
    adds exactly the one record [call ign] to the log. *)
Definition makes_one_call {t} (op : Op t) (c : LegacyClient W) (h : loc)
  (ctx : context_Context) (opts : list CallOption) (m : Machine W)
  (call : slice (slice uint32) -> CallRecord) : Prop :=
  exists ign,
    toLegacyIgnored opts = Some ign
    /\ perform op h ctx opts m
       = Some (fst (legacy_method c op ctx ign (world m)),
               {| heap := heap m;
                  world := snd (legacy_method c op ctx ign (world m)) |})
    /\ forall log,
         perform op h ctx opts (instrument log m)
         = Some (fst (legacy_method c op ctx ign (world m)),
                 instrument (log ++ [call ign])
                   {| heap := heap m;
                      world := snd (legacy_method c op ctx ign (world m)) |}).

End Forwarding.

(** A machine whose heap holds a root facade and a NAT handle over the
    stub, before any request. *)
Definition stub_machine : Machine nat :=
  {| heap := [handle_obj T_rootAdapter stub; handle_obj T_natClient stub];
     world := 0%nat |}.

(** ** Client programs

    What the callers of the package do (the examples of the package are
    such programs): build a root, navigate, invoke operations. *)

(** The codes that a slice of ignored-code groups carries, as a callee
    that ranges over the groups reads them. *)
Definition flatten (ign : slice (slice uint32)) : list uint32 :=
  concat (elems <$> elems ign).

#[global] Instance HandleType_eq_dec : EqDecision HandleType.
Proof. solve_decision. Defined.

#[global] Instance api_eq_dec : EqDecision api.t.
Proof. solve_decision. Defined.

(** The struct a chain of accessors leads to from a handle of struct
    [k], when each accessor is a method of the struct it is called on. *)
Fixpoint path_type (k : HandleType) (path : list Accessor) : option HandleType :=
  match path with
  | [] => Some k
  | a :: rest =>
      if decide (receiver a = k) then path_type (yields a) rest else None
  end.

Section Programs.
Context {F : Foreign} {W : Type}.

(** A reply of any operation. *)
Definition AnyReply : Type := {t : api.t & Reply t}.

(** One step of a program, with the replies it receives. *)
Definition exec_reply (act : @Action F W) : M W (list AnyReply) :=
  match act with
  | DoPerform op h ctx opts =>
      let! r := perform op h ctx opts in
      ret [existT _ r]
  | _ =>
      let! _ := exec act in
      ret []
  end.

(** A program: its steps in order, with the replies in order. *)
Fixpoint run (script : list (@Action F W)) : M W (list AnyReply) :=
  match script with
  | [] => ret []
  | act :: rest =>
      let! replies := exec_reply act in
      let! more := run rest in
      ret (replies ++ more)
  end.

(** What the Go type checker asks of a step, given the struct of every
    handle allocated so far: a method is called on a handle of its
    receiver struct. The result lists the structs after the step. *)
Definition check_step (types : list HandleType) (act : @Action F W)
  : option (list HandleType) :=
  match act with
  | DoNewFromProto _ _ => Some (types ++ [T_rootAdapter])
  | DoAsV2 _ => Some (types ++ [T_rootAdapter])
  | DoNavigate a h =>
      if decide (types !! h = Some (receiver a))
      then Some (types ++ [yields a])
      else None
  | DoPerform op h _ _ =>
      if decide (types !! h = Some (owner op)) then Some types else None
  end.

Fixpoint check (types : list HandleType) (script : list (@Action F W)) : bool :=
  match script with
  | [] => true
  | act :: rest =>
      match check_step types act with
      | Some types' => check types' rest
      | None => false
      end
  end.

(** The transport form of the options of a call. *)
Definition ignored_of (opts : list CallOption) : slice (slice uint32) :=
  default nil_slice (toLegacyIgnored opts).

(** The operations of a program invoked directly on the legacy client
    [c], one after the other: the replies and the final state of the
    world. *)
Fixpoint direct (c : LegacyClient W) (script : list (@Action F W)) (w : W)
  : list AnyReply * W :=
  match script with
  | [] => ([], w)
  | DoPerform op _ ctx opts :: rest =>
      let (r, w1) := legacy_method c op ctx (ignored_of opts) w in
      let (rs, w2) := direct c rest w1 in
      (existT _ r :: rs, w2)
  | _ :: rest => direct c rest w
  end.

Definition is_operation (act : @Action F W) : bool :=
  match act with
  | DoPerform _ _ _ _ => true
  | _ => false
  end.

(** The number of operations a program invokes. *)
Definition operations (script : list (@Action F W)) : nat :=
  length (List.filter is_operation script).

(** The handles a program allocates: one per constructor or accessor
    call. *)
Definition allocations (script : list (@Action F W)) : nat :=
  length (List.filter (fun act => negb (is_operation act)) script).

(** Every root the program builds holds the client [c]. *)
Definition builds (c : LegacyClient W) (act : @Action F W) : Prop :=
  match act with
  | DoNewFromProto NewClient rpc => NewClient rpc = c
  | DoAsV2 c' => c' = c
  | _ => True
  end.

(** An operation invoked with a context and options, whatever the
    handle. *)
Record Invocation := {
  inv_type : api.t;
  inv_op : Op inv_type;
  inv_ctx : context_Context;
  inv_opts : list CallOption
}.

(** The invocations of a program, in order. *)
Definition invocations (script : list (@Action F W)) : list Invocation :=
  flat_map (fun act =>
              match act with
              | DoPerform op _ ctx opts =>
                  [{| inv_op := op; inv_ctx := ctx; inv_opts := opts |}]
              | _ => []
              end) script.

(** Invocations made directly on the legacy client [c], one after the
    other. *)
Fixpoint invoke_all (c : LegacyClient W) (invs : list Invocation) (w : W)
  : list AnyReply * W :=
  match invs with
  | [] => ([], w)
  | inv :: rest =>
      let (r, w1) := legacy_method c (inv_op inv) (inv_ctx inv)
                       (ignored_of (inv_opts inv)) w in
      let (rs, w2) := invoke_all c rest w1 in
      (existT _ r :: rs, w2)
  end.

(** The legacy calls of a program, in order. *)
Definition calls (script : list (@Action F W)) : list CallRecord :=
  flat_map (fun act =>
              match act with
              | DoPerform op _ ctx opts => [forwarded_call op ctx (ignored_of opts)]
              | _ => []
              end) script.

(** The same program over recording wrappers of its legacy clients. *)
Definition instrument_action (act : @Action F W)
  : @Action F (W * list CallRecord) :=
  match act with
  | DoNewFromProto NewClient rpc =>
      DoNewFromProto (fun rpc' => recording (NewClient rpc')) rpc
  | DoAsV2 c => DoAsV2 (recording c)
  | DoNavigate a h => DoNavigate a h
  | DoPerform op h ctx opts => DoPerform op h ctx opts
  end.

End Programs.

(** The routes example of the package over the stub: a root from the
    transport client, then list, create and delete. *)
Definition routes_example : list (@Action stub_types nat) :=
  [DoNewFromProto (fun _ => stub) tt;
   DoNavigate Client_Routes_acc 2%nat;
   DoPerform (Routes_List 42) 3%nat tt [];
   DoNavigate Client_Routes_acc 2%nat;
   DoPerform (Routes_Create "route") 4%nat tt [];
   DoNavigate Client_Routes_acc 2%nat;
   DoPerform (Routes_Delete 42 "10.0.0.0/24") 5%nat tt []].

(** The same operations on one [Routes] handle that the program keeps. *)
Definition routes_example_one_handle : list (@Action stub_types nat) :=
  [DoNewFromProto (fun _ => stub) tt;
   DoNavigate Client_Routes_acc 2%nat;
   DoPerform (Routes_List 42) 3%nat tt [];
   DoPerform (Routes_Create "route") 3%nat tt [];
   DoPerform (Routes_Delete 42 "10.0.0.0/24") 3%nat tt []].

(** * Properties *)

(** ** Slices *)

Lemma elems_append {A} (s : slice A) xs : elems (append s xs) = elems s ++ xs.
Proof. destruct xs; simpl; [by rewrite app_nil_r | done]. Qed.

Lemma append_nil {A} (s : slice A) : append s [] = s.
Proof. done. Qed.

Lemma slice_of_nil_iff {A} (l : list A) : slice_of l = nil_slice <-> l = [].
Proof. destruct l; simpl; split; congruence. Qed.

Lemma append_slice_of {A} (l xs : list A) : append (slice_of l) xs = slice_of (l ++ xs).
Proof.
  destruct l as [|a l], xs as [|x xs]; simpl; try done.
  by rewrite app_nil_r.
Qed.

Lemma elems_slice_of {A} (l : list A) : elems (slice_of l) = l.
Proof. by destruct l. Qed.

Lemma len_zero_elems {A} (s : slice A) : Nat.eqb (len s) 0 = true <-> elems s = [].
Proof.
  unfold len. destruct (elems s); simpl; split; congruence.
Qed.

(** ** The call-option mechanism *)

Lemma range_opts_total opts : forall o, is_Some (range_opts opts o).
Proof.
  induction opts as [|[f|] rest IH]; intros o; simpl; eauto.
Qed.

Lemma range_opts_app l1 l2 o :
  range_opts (l1 ++ l2) o = o' ← range_opts l1 o; range_opts l2 o'.
Proof.
  revert o. induction l1 as [|[f|] l1 IH]; intros o; simpl; auto.
Qed.

Lemma range_opts_values vs : forall l,
  range_opts (option_of <$> vs) {| ignoredCodes := slice_of l |}
  = Some {| ignoredCodes := slice_of (l ++ concat (contributed <$> vs)) |}.
Proof.
  induction vs as [|[|codes] vs IH]; intros l; simpl.
  - by rewrite app_nil_r.
  - apply IH.
  - rewrite append_slice_of, IH. by rewrite <- app_assoc.
Qed.

Lemma buildCallOptions_values vs :
  buildCallOptions (option_of <$> vs)
  = Some {| ignoredCodes := slice_of (concat (contributed <$> vs)) |}.
Proof. apply (range_opts_values vs []). Qed.

Lemma buildCallOptions_total opts : is_Some (buildCallOptions opts).
Proof. apply range_opts_total. Qed.

Lemma toLegacyIgnored_total opts : is_Some (toLegacyIgnored opts).
Proof.
  unfold toLegacyIgnored.
  destruct (buildCallOptions_total opts) as [o ->]; simpl.
  destruct (Nat.eqb _ _); eauto.
Qed.

Lemma toLegacyIgnored_values vs :
  toLegacyIgnored (option_of <$> vs)
  = Some match concat (contributed <$> vs) with
         | [] => nil_slice
         | (_ :: _) as codes => mk_slice [mk_slice codes]
         end.
Proof.
  unfold toLegacyIgnored. rewrite buildCallOptions_values.
  generalize (concat (contributed <$> vs)). by intros [|code codes].
Qed.

Lemma callOptions_eta o : {| ignoredCodes := ignoredCodes o |} = o.
Proof. by destruct o. Qed.

Lemma buildCallOptions_skip (opt : CallOption) l1 l2 :
  (forall o, range_opts [opt] o = Some o) ->
  buildCallOptions (l1 ++ opt :: l2) = buildCallOptions (l1 ++ l2).
Proof.
  intros Hskip. unfold buildCallOptions.
  rewrite !range_opts_app.
  destruct (range_opts l1 zero_callOptions) as [o|]; [|done].
  change (range_opts ([opt] ++ l2) o = range_opts l2 o).
  by rewrite range_opts_app, Hskip.
Qed.

(** The mechanism on small inputs. *)

Example toLegacyIgnored_no_options : toLegacyIgnored [] = Some nil_slice.
Proof. reflexivity. Qed.

Example toLegacyIgnored_two_options :
  toLegacyIgnored [WithIgnoredCodes [1001]; WithIgnoredCodes [1002; 1003]]
  = Some (mk_slice [mk_slice [1001; 1002; 1003]]).
Proof. reflexivity. Qed.

Example buildCallOptions_keeps_duplicates :
  buildCallOptions [WithIgnoredCodes [7]; None; WithIgnoredCodes []; WithIgnoredCodes [7]]
  = Some {| ignoredCodes := mk_slice [7; 7] |}.
Proof. reflexivity. Qed.

(** Without the guard of the loop a nil option would panic. *)
Example call_option_nil_panics : call_option None zero_callOptions = None.
Proof. reflexivity. Qed.

(** An option that leaves an empty but non-nil code slice still converts
    to the nil slice of groups. *)
Example toLegacyIgnored_empty_non_nil :
  toLegacyIgnored [Some (fun _ => {| ignoredCodes := mk_slice [] |})] = Some nil_slice.
Proof. reflexivity. Qed.

Lemma concat_contributed_nil vs :
  concat (contributed <$> vs) = [] <-> Forall (fun v => contributed v = []) vs.
Proof.
  induction vs as [|v vs IH]; [by split|].
  rewrite fmap_cons, Forall_cons, <- IH. simpl.
  split; [apply app_eq_nil|by intros [-> ->]].
Qed.

(** C8. The call-option mechanism cannot fail: for every list of option
    values, nil entries and the empty list included, [buildCallOptions]
    and [toLegacyIgnored] return a value and never panic. *)
Theorem call_options_never_fail (opts : list CallOption) :
  (exists o, buildCallOptions opts = Some o)
  /\ (exists ign, toLegacyIgnored opts = Some ign).
Proof.
  split.
  - apply buildCallOptions_total.
  - apply toLegacyIgnored_total.
Qed.

(** C2. For every list of call options, [toLegacyIgnored] yields the nil
    slice when the accumulated code list is empty and otherwise the slice
    holding exactly one group, the accumulated codes in order; it never
    yields a group without codes nor more than one group. For option
    values the group is the concatenation of their codes. *)
Theorem toLegacyIgnored_omitted_or_one_group :
  (forall opts : list CallOption,
      exists o ign,
        buildCallOptions opts = Some o
        /\ toLegacyIgnored opts = Some ign
        /\ ((elems (ignoredCodes o) = [] /\ ign = nil_slice)
            \/ (elems (ignoredCodes o) <> [] /\ ign = mk_slice [ignoredCodes o]))
        /\ (len ign <= 1)%nat
        /\ Forall (fun group => elems group <> []) (elems ign))
  /\ (forall vs : list OptionValue,
         toLegacyIgnored (option_of <$> vs)
         = Some match concat (contributed <$> vs) with
                | [] => nil_slice
                | (_ :: _) as codes => mk_slice [mk_slice codes]
                end).
Proof.
  split; [|apply toLegacyIgnored_values].
  intros opts. unfold toLegacyIgnored.
  destruct (buildCallOptions_total opts) as [o ->]; simpl.
  destruct (Nat.eqb (len (ignoredCodes o)) 0) eqn:E.
  - apply len_zero_elems in E.
    exists o, nil_slice. repeat split; auto; simpl; lia.
  - assert (elems (ignoredCodes o) <> []) as Hne.
    { intros Hnil. apply len_zero_elems in Hnil. congruence. }
    exists o, (mk_slice [ignoredCodes o]). repeat split; auto.
    simpl. by repeat constructor.
Qed.

(** C3. For every sequence of option values applied by
    [buildCallOptions] to the zero configuration, the resulting code list
    is the concatenation of the codes each value contributes, in
    application order; it is empty exactly when no value contributed a
    code; and a value applied twice contributes its codes twice. *)
Theorem buildCallOptions_concatenates :
  (forall vs : list OptionValue,
      exists o,
        buildCallOptions (option_of <$> vs) = Some o
        /\ elems (ignoredCodes o) = concat (contributed <$> vs)
        /\ (Forall (fun v => contributed v = []) vs <-> o = zero_callOptions))
  /\ (forall v : OptionValue,
         exists o,
           buildCallOptions [option_of v; option_of v] = Some o
           /\ elems (ignoredCodes o) = contributed v ++ contributed v).
Proof.
  split.
  - intros vs. eexists. split; [apply buildCallOptions_values|]. simpl.
    split; [apply elems_slice_of|].
    rewrite <- concat_contributed_nil, <- (slice_of_nil_iff (concat _)).
    unfold zero_callOptions. split; [by intros ->|congruence].
  - intros v. eexists. split; [apply (buildCallOptions_values [v; v])|].
    cbn [ignoredCodes]. rewrite elems_slice_of. simpl. by rewrite app_nil_r.
Qed.

(** C4. A nil option is skipped: a nil [CallOption] at any position of
    the list leaves the built configuration as it is without it, and a
    list of nil options builds the zero configuration. *)
Theorem nil_option_is_skipped :
  (forall l1 l2 : list CallOption,
      buildCallOptions (l1 ++ None :: l2) = buildCallOptions (l1 ++ l2))
  /\ (forall n : nat,
         buildCallOptions (replicate n None) = Some zero_callOptions).
Proof.
  split.
  - intros l1 l2. by apply buildCallOptions_skip.
  - intros n. unfold buildCallOptions. induction n as [|n IH]; simpl; auto.
Qed.

(** C10. [WithIgnoredCodes()] with no codes is a non-nil option whose
    application changes nothing: inserted anywhere in an option list it
    leaves the built configuration the same, and alone it still gives the
    nil transport form. *)
Theorem WithIgnoredCodes_no_codes_is_neutral :
  not_nil (WithIgnoredCodes []) = true
  /\ WithIgnoredCodes [] <> None
  /\ (forall l1 l2 : list CallOption,
         buildCallOptions (l1 ++ WithIgnoredCodes [] :: l2)
         = buildCallOptions (l1 ++ l2))
  /\ toLegacyIgnored [WithIgnoredCodes []] = Some nil_slice.
Proof.
  repeat split; try done.
  intros l1 l2. apply buildCallOptions_skip.
  intros o. simpl. by rewrite callOptions_eta.
Qed.

(** ** The facade *)

Section FacadeFacts.
Context {F : Foreign} {W : Type}.
Implicit Types (m : Machine W) (c : LegacyClient W) (h : loc).

Lemma perform_forwards {t} (op : Op t) c h ctx opts ign m :
  heap m !! h = Some (handle_obj (owner op) c) ->
  toLegacyIgnored opts = Some ign ->
  perform op h ctx opts m
  = Some (fst (legacy_method c op ctx ign (world m)),
          {| heap := heap m;
             world := snd (legacy_method c op ctx ign (world m)) |}).
Proof.
  intros Hh Hign.
  destruct op; cbn in Hh |- *; run_facade;
    match goal with |- context [let (_, _) := ?call in _] => by destruct call end.
Qed.

(** [NewFromProto] is [AsV2] of a legacy client built for the purpose. *)
Lemma NewFromProto_AsV2 (NewClient : DPDKironcoreClient -> LegacyClient W) rpc :
  NewFromProto NewClient rpc = AsV2 (NewClient rpc).
Proof. reflexivity. Qed.

Lemma perform_inv {t} (op : Op t) h ctx opts m r m' :
  perform op h ctx opts m = Some (r, m') ->
  heap m' = heap m
  /\ exists c, heap m !! h = Some (handle_obj (owner op) c).
Proof.
  destruct op; cbn [perform owner]; autounfold with facade;
    destruct (heap m !! h) as [[[c]|[c]|[c]|[c]|[c]|[c]|[c]|[c]|[c]|[c]|[c]|[c]]|];
    cbn; try discriminate;
    (destruct (toLegacyIgnored opts) as [ign|]; cbn; [|discriminate]);
    match goal with |- context [let (_, _) := ?call in _] => destruct call end;
    intros [= <- <-]; eauto.
Qed.

Lemma perform_observe {t} (op : Op t) h1 h2 ctx opts m1 m2 o :
  heap m1 !! h1 = Some o ->
  heap m2 !! h2 = Some o ->
  world m1 = world m2 ->
  observe (perform op h1 ctx opts m1) = observe (perform op h2 ctx opts m2).
Proof.
  destruct m1 as [hp1 w1], m2 as [hp2 w2]; cbn [heap world].
  intros H1 H2 <-.
  destruct op; cbn [perform]; autounfold with facade; cbn [heap world];
    rewrite H1, H2; destruct o; cbn; try done;
    (destruct (toLegacyIgnored opts) as [ign|]; cbn; [|done]);
    match goal with |- context [let (_, _) := ?call in _] => by destruct call end.
Qed.

Lemma navigate_constructs a c h m :
  heap m !! h = Some (handle_obj (receiver a) c) ->
  navigate a h m
  = Some (length (heap m),
          {| heap := heap m ++ [handle_obj (yields a) c]; world := world m |}).
Proof.
  intros Hh. destruct a; cbn in Hh |- *; by run_facade.
Qed.

Lemma navigate_inv a h m h' m' :
  navigate a h m = Some (h', m') ->
  exists c,
    heap m !! h = Some (handle_obj (receiver a) c)
    /\ h' = length (heap m)
    /\ m' = {| heap := heap m ++ [handle_obj (yields a) c]; world := world m |}.
Proof.
  destruct a; cbn [navigate receiver yields]; autounfold with facade;
    destruct (heap m !! h) as [[[c]|[c]|[c]|[c]|[c]|[c]|[c]|[c]|[c]|[c]|[c]|[c]]|];
    cbn; try discriminate; intros [= <- <-]; eauto.
Qed.

Lemma handle_obj_inj k1 k2 c1 c2 :
  handle_obj k1 c1 = handle_obj k2 c2 -> k1 = k2 /\ c1 = c2.
Proof.
  intros Heq. split.
  - apply (f_equal type_of) in Heq. by destruct k1, k2.
  - apply (f_equal legacy_of) in Heq. by destruct k1, k2.
Qed.

Lemma handle_obj_eta (o : Obj W) : o = handle_obj (type_of o) (legacy_of o).
Proof. by destruct o as [[c]|[c]|[c]|[c]|[c]|[c]|[c]|[c]|[c]|[c]|[c]|[c]]. Qed.

(** A step of a client program adds handles to the heap and changes none. *)
Lemma exec_extends act m m' :
  exec act m = Some (tt, m') -> exists added, heap m' = heap m ++ added.
Proof.
  destruct act as [NewClient rpc|c|a h|t op h ctx opts]; unfold exec, bind at 1.
  - cbn. intros [= <-]. eauto.
  - cbn. intros [= <-]. eauto.
  - destruct (navigate a h m) as [[h' m1]|] eqn:E; [|discriminate].
    cbn. intros [= <-]. apply navigate_inv in E as (c & _ & _ & ->). eauto.
  - destruct (perform op h ctx opts m) as [[r m1]|] eqn:E; [|discriminate].
    cbn. intros [= <-]. apply perform_inv in E as [-> _].
    exists []. by rewrite app_nil_r.
Qed.

Lemma exec_preserves act m m' l o :
  exec act m = Some (tt, m') -> heap m !! l = Some o -> heap m' !! l = Some o.
Proof.
  intros [added ->]%exec_extends Hl. by apply lookup_app_l_Some.
Qed.

Lemma derived_carries m0 root c m h :
  heap m0 !! root = Some (handle_obj T_rootAdapter c) ->
  derived m0 root m h ->
  heap m !! root = Some (handle_obj T_rootAdapter c)
  /\ exists k, heap m !! h = Some (handle_obj k c).
Proof.
  intros Hroot Hd. induction Hd as [|m h a h' m' _ [IHr [k IHh]] Hnav|m h act m' _ [IHr [k IHh]] Hexec].
  - eauto.
  - apply navigate_inv in Hnav as (c' & Hh & -> & ->); cbn.
    rewrite IHh in Hh. injection Hh as Hh. apply handle_obj_inj in Hh as [_ <-].
    split; [by apply lookup_app_l_Some|].
    exists (yields a). by apply list_lookup_middle.
  - split; [|exists k]; eapply exec_preserves; eauto.
Qed.

Lemma follow_derived path : forall m0 root m h m' h',
  derived m0 root m h ->
  follow path h m = Some (h', m') ->
  derived m0 root m' h'.
Proof.
  induction path as [|a rest IH]; intros m0 root m h m' h' Hd; cbn [follow].
  - intros [= <- <-]. exact Hd.
  - unfold bind. destruct (navigate a h m) as [[h1 m1]|] eqn:Hnav; [|discriminate].
    apply IH. by eapply derived_navigate.
Qed.

Lemma navigate_then_perform a c h m {t} (op : Op t) ctx opts ign :
  heap m !! h = Some (handle_obj (receiver a) c) ->
  owner op = yields a ->
  toLegacyIgnored opts = Some ign ->
  observe ((let! h' := navigate a h in perform op h' ctx opts) m)
  = Some (legacy_method c op ctx ign (world m)).
Proof.
  intros Hh Hown Hign. unfold bind.
  rewrite (navigate_constructs a c h m Hh).
  rewrite (perform_forwards op c _ ctx opts ign); cbn; auto.
  - by destruct (legacy_method c op ctx ign (world m)).
  - rewrite Hown. by apply list_lookup_middle.
Qed.

Lemma navigate_again_constructs n a c h : forall m,
  heap m !! h = Some (handle_obj (receiver a) c) ->
  exists h' m',
    navigate_again n a h m = Some (h', m')
    /\ world m' = world m
    /\ heap m' !! h' = Some (handle_obj (yields a) c)
    /\ forall l o, heap m !! l = Some o -> heap m' !! l = Some o.
Proof.
  induction n as [|n IH]; intros m Hh; cbn [navigate_again].
  - rewrite (navigate_constructs a c h m Hh). do 2 eexists. split; [done|]. cbn.
    split; [done|]. split; [by apply list_lookup_middle|].
    intros l o Hl. by apply lookup_app_l_Some.
  - unfold bind. rewrite (navigate_constructs a c h m Hh).
    set (m1 := {| heap := heap m ++ [handle_obj (yields a) c]; world := world m |}).
    destruct (IH m1) as (h' & m' & Hrun & Hw & Hh' & Hkeep).
    { by apply lookup_app_l_Some. }
    exists h', m'. split; [done|]. split; [done|]. split; [done|].
    intros l o Hl. apply Hkeep. by apply lookup_app_l_Some.
Qed.

End FacadeFacts.

(** ** Forwarding, seen by the recording client *)

Section ForwardingFacts.
Context {F : Foreign} {W : Type}.
Implicit Types (c : LegacyClient W) (m : Machine W) (h : loc).

Lemma legacy_method_recording {t} (op : Op t) c ctx ign w log :
  legacy_method (recording c) op ctx ign (w, log)
  = (fst (legacy_method c op ctx ign w),
     (snd (legacy_method c op ctx ign w), log ++ [forwarded_call op ctx ign])).
Proof.
  destruct op; cbn;
    match goal with |- context [let (_, _) := ?call in _] => by destruct call end.
Qed.

Lemma instrument_lookup log m h k c :
  heap m !! h = Some (handle_obj k c) ->
  heap (instrument log m) !! h = Some (handle_obj k (recording c)).
Proof.
  intros Hh. cbn [instrument heap]. rewrite list_lookup_fmap, Hh. by destruct k.
Qed.

Lemma perform_recorded {t} (op : Op t) c h ctx opts m :
  heap m !! h = Some (handle_obj (owner op) c) ->
  makes_one_call op c h ctx opts m (forwarded_call op ctx).
Proof.
  intros Hh. destruct (toLegacyIgnored_total opts) as [ign Hign].
  exists ign. split; [done|]. split; [by apply perform_forwards|].
  intros log.
  rewrite (perform_forwards op (recording c) h ctx opts ign (instrument log m));
    [|by apply instrument_lookup|done].
  cbn [instrument world heap]. by rewrite legacy_method_recording.
Qed.

(** C1. For every declared operation [op] on a handle that holds the
    legacy client [c], invoking it with context [ctx], its required
    parameters and the options [opts] makes exactly one call, to the
    corresponding method of [c], passing [ctx], the required parameters
    in order, for [ListAny] the fixed NAT type ["any"] after them, and
    [toLegacyIgnored opts]; it returns that method's object and error
    unchanged. Every operation that does not target [ListNats] passes
    its required parameters and nothing else. *)
Theorem operation_forwards_one_call {t} (op : Op t) c h ctx opts m :
  heap m !! h = Some (handle_obj (owner op) c) ->
  makes_one_call op c h ctx opts m (forwarded_call op ctx)
  /\ (target op <> method.ListNats ->
      forall ign, forwarded_call op ctx ign = verbatim_call op ctx ign)
  /\ (target op = method.ListNats ->
      forall ign,
        rec_args (forwarded_call op ctx ign) = params op ++ [AString "any"]).
Proof.
  intros Hh. split; [by apply perform_recorded|].
  split; intros Htarget ign; destruct op; cbn in Htarget; try done;
    unfold forwarded_call, verbatim_call; cbn; by rewrite ?app_nil_r.
Qed.

(** C5. [AsV2 c] allocates a root facade that holds [c] itself and
    touches nothing else; [Routes().List(ctx, 42)] on that facade returns
    what the [ListRoutes] method of [c] returns for VNI 42 and the nil
    slice of ignored-code groups, and with [c] wrapped in a recorder the
    run logs that one call and no other. *)
Theorem AsV2_Routes_List_forwards c (ctx : context_Context) m :
  AsV2 c m
  = Some (length (heap m),
          {| heap := heap m ++ [handle_obj T_rootAdapter c]; world := world m |})
  /\ (let! v2 := AsV2 c in
      let! routes := rootAdapter_Routes v2 in
      routeClient_List routes ctx 42 []) m
     = Some (fst (ListRoutes c ctx 42 nil_slice (world m)),
             {| heap := heap m ++ [handle_obj T_rootAdapter c;
                                   handle_obj T_routeClient c];
                world := snd (ListRoutes c ctx 42 nil_slice (world m)) |})
  /\ forall log,
       (let! v2 := AsV2 (recording c) in
        let! routes := rootAdapter_Routes v2 in
        routeClient_List routes ctx 42 []) (instrument log m)
       = Some (fst (ListRoutes c ctx 42 nil_slice (world m)),
               instrument
                 (log ++ [{| rec_method := method.ListRoutes; rec_ctx := ctx;
                             rec_args := [AUint32 42];
                             rec_ignored := nil_slice |}])
                 {| heap := heap m ++ [handle_obj T_rootAdapter c;
                                       handle_obj T_routeClient c];
                    world := snd (ListRoutes c ctx 42 nil_slice (world m)) |}).
Proof.
  split; [done|].
  assert (forall W' (c' : LegacyClient W') (m' : Machine W') ign,
             toLegacyIgnored [] = Some ign ->
             (let! v2 := AsV2 c' in
              let! routes := rootAdapter_Routes v2 in
              routeClient_List routes ctx 42 []) m'
             = Some (fst (legacy_method c' (Routes_List 42) ctx ign (world m')),
                     {| heap := heap m' ++ [handle_obj T_rootAdapter c';
                                            handle_obj T_routeClient c'];
                        world := snd (legacy_method c' (Routes_List 42) ctx ign (world m')) |}))
    as Hrun.
  { intros W' c' m' ign Hign.
    pose proof (navigate_constructs Client_Routes_acc c' (length (heap m'))
                  {| heap := heap m' ++ [handle_obj T_rootAdapter c'];
                     world := world m' |}) as Hnav.
    pose proof (perform_forwards (Routes_List 42) c'
                  (length (heap m' ++ [handle_obj T_rootAdapter c'])) ctx [] ign
                  {| heap := (heap m' ++ [handle_obj T_rootAdapter c'])
                             ++ [handle_obj T_routeClient c'];
                     world := world m' |}) as Hop.
    cbn [navigate perform receiver yields owner heap world handle_obj] in Hnav, Hop.
    unfold bind, AsV2 at 1, new at 1. cbn [heap world handle_obj].
    rewrite Hnav by (by apply list_lookup_middle).
    rewrite Hop; [|by apply list_lookup_middle|done].
    by rewrite <- app_assoc. }
  split; [by apply (Hrun W c m nil_slice)|].
  intros log. rewrite (Hrun _ (recording c) (instrument log m) nil_slice eq_refl).
  cbn [instrument heap world]. rewrite legacy_method_recording.
  unfold instrument. cbn [heap world fst snd]. by rewrite fmap_app.
Qed.

End ForwardingFacts.

(** ** Handles and accessors *)

Section HandleFacts.
Context {F : Foreign} {W : Type}.
Implicit Types (c : LegacyClient W) (m : Machine W) (h : loc).

(** C6. An accessor called on a handle that holds the client [c] only
    allocates a new handle that holds [c]: the outside world and every
    existing handle stay as they are. Called any number of times it
    yields handles with the same content, and an operation invoked on the
    handle of the last call is observed exactly as the operation invoked
    after a single call, which is the corresponding method of [c]. *)
Theorem accessors_only_construct_handles (a : Accessor) c h m :
  heap m !! h = Some (handle_obj (receiver a) c) ->
  navigate a h m
  = Some (length (heap m),
          {| heap := heap m ++ [handle_obj (yields a) c]; world := world m |})
  /\ (forall n : nat,
         exists h' m',
           navigate_again n a h m = Some (h', m')
           /\ world m' = world m
           /\ heap m' !! h' = Some (handle_obj (yields a) c)
           /\ forall l o, heap m !! l = Some o -> heap m' !! l = Some o)
  /\ (forall (n : nat) t (op : Op t) ctx opts,
         observe ((let! h' := navigate_again n a h in perform op h' ctx opts) m)
         = observe ((let! h' := navigate a h in perform op h' ctx opts) m))
  /\ (forall t (op : Op t) ctx opts ign,
         owner op = yields a ->
         toLegacyIgnored opts = Some ign ->
         observe ((let! h' := navigate a h in perform op h' ctx opts) m)
         = Some (legacy_method c op ctx ign (world m))).
Proof.
  intros Hh. split; [by apply navigate_constructs|].
  split; [intros n; by apply navigate_again_constructs|].
  split.
  - intros n t op ctx opts.
    destruct (navigate_again_constructs n a c h m Hh) as (h' & m' & Hrun & Hw & Hh' & _).
    unfold bind. rewrite Hrun, (navigate_constructs a c h m Hh).
    apply (perform_observe op _ _ ctx opts _ _ (handle_obj (yields a) c)); auto.
    by apply list_lookup_middle.
  - intros t op ctx opts ign Hown Hign. by apply navigate_then_perform.
Qed.

(** C7. A handle is its struct type and the legacy client it holds,
    nothing more. Every handle derived from a root facade, directly or
    through any chain of accessors interleaved with any other use of the
    facade, holds the legacy client the root holds, and the root keeps
    holding it; no step of a client program changes a handle that
    exists. *)
Theorem handles_share_the_legacy_client (m0 : Machine W) (root : loc) c m h :
  heap m0 !! root = Some (handle_obj T_rootAdapter c) ->
  derived m0 root m h ->
  (exists k, heap m !! h = Some (handle_obj k c))
  /\ heap m !! root = Some (handle_obj T_rootAdapter c)
  /\ (forall o : Obj W, o = handle_obj (type_of o) (legacy_of o))
  /\ (forall act m1 m2 l o,
         exec act m1 = Some (tt, m2) ->
         heap m1 !! l = Some o ->
         heap m2 !! l = Some o).
Proof.
  intros Hroot Hd.
  destruct (derived_carries m0 root c m h Hroot Hd) as [Hr Hh].
  repeat split; auto using handle_obj_eta.
  intros act m1 m2 l o. apply exec_preserves.
Qed.

(** C9. On one root facade, every firewall operation invoked on the
    handle of [Client.Firewall()] and on the handle of
    [Interfaces().Firewall()] is observed the same: the result, the error
    and the outside world are those of the one corresponding method of
    the root's legacy client. *)
Theorem firewall_paths_agree (root : loc) c m {t} (op : Op t) ctx opts :
  heap m !! root = Some (handle_obj T_rootAdapter c) ->
  owner op = T_fwClient ->
  exists ign,
    toLegacyIgnored opts = Some ign
    /\ observe ((let! fw := rootAdapter_Firewall root in
                perform op fw ctx opts) m)
       = Some (legacy_method c op ctx ign (world m))
    /\ observe ((let! ifaces := rootAdapter_Interfaces root in
                let! fw := ifaceClient_Firewall ifaces in
                perform op fw ctx opts) m)
       = Some (legacy_method c op ctx ign (world m)).
Proof.
  intros Hroot Hown. destruct (toLegacyIgnored_total opts) as [ign Hign].
  exists ign. split; [done|]. split.
  - by apply (navigate_then_perform Client_Firewall_acc c root m op ctx opts ign).
  - unfold bind at 1.
    pose proof (navigate_constructs Client_Interfaces_acc c root m Hroot) as Hnav.
    cbn [navigate receiver yields] in Hnav. rewrite Hnav.
    pose proof (navigate_then_perform Interfaces_Firewall_acc c (length (heap m))
                  {| heap := heap m ++ [handle_obj T_ifaceClient c]; world := world m |}
                  op ctx opts ign) as Hfw.
    cbn [navigate receiver yields heap world] in Hfw.
    apply Hfw; auto. by apply list_lookup_middle.
Qed.

End HandleFacts.

(** ** The properties at work on the stub client *)

Lemma operation_forwards_one_call_on_stub :
  heap stub_machine !! 1%nat
  = Some (handle_obj (owner (NATs_Get "iface-1")) stub)
  /\ makes_one_call (NATs_Get "iface-1") stub 1%nat tt
       [WithIgnoredCodes [1001]; WithIgnoredCodes [1002; 1003]]
       stub_machine (forwarded_call (NATs_Get "iface-1") tt).
Proof.
  split; [reflexivity|].
  exact (proj1 (operation_forwards_one_call (NATs_Get "iface-1") stub 1%nat tt
                  [WithIgnoredCodes [1001]; WithIgnoredCodes [1002; 1003]]
                  stub_machine eq_refl)).
Defined.

(** [ListAny] passes the NAT type ["any"] after its one required
    parameter, so the call it makes is not the verbatim one. *)
Lemma ListAny_call_is_not_verbatim :
  heap stub_machine !! 1%nat
  = Some (handle_obj (owner (NATs_ListAny "10.0.0.1")) stub)
  /\ ~ makes_one_call (NATs_ListAny "10.0.0.1") stub 1%nat tt [] stub_machine
         (verbatim_call (NATs_ListAny "10.0.0.1") tt).
Proof.
  split; [reflexivity|].
  intros (ign & Hign & _ & Hrun).
  vm_compute in Hign. injection Hign as <-.
  specialize (Hrun []). vm_compute in Hrun. discriminate Hrun.
Qed.

Lemma accessors_only_construct_handles_on_stub :
  heap stub_machine !! 0%nat
  = Some (handle_obj (receiver Client_NATs_acc) stub)
  /\ observe ((let! nats := navigate_again 3%nat Client_NATs_acc 0%nat in
              perform (NATs_Get "iface-1") nats tt []) stub_machine)
     = observe ((let! nats := navigate Client_NATs_acc 0%nat in
                perform (NATs_Get "iface-1") nats tt []) stub_machine).
Proof.
  split; [reflexivity|].
  exact (proj1 (proj2 (proj2 (accessors_only_construct_handles
                                Client_NATs_acc stub 0%nat stub_machine eq_refl)))
           3%nat _ (NATs_Get "iface-1") tt []).
Defined.

Lemma handles_share_the_legacy_client_on_stub :
  exists k,
    (heap stub_machine ++ [handle_obj T_ifaceClient stub;
                           handle_obj T_vipClient stub]) !! 3%nat
    = Some (handle_obj k stub).
Proof.
  refine (proj1 (handles_share_the_legacy_client stub_machine 0%nat stub
                   {| heap := heap stub_machine
                              ++ [handle_obj T_ifaceClient stub;
                                  handle_obj T_vipClient stub];
                      world := world stub_machine |} 3%nat eq_refl _)).
  eapply follow_derived with (path := [Client_Interfaces_acc; Interfaces_VIP_acc]) (h := 0%nat).
  - apply derived_root.
  - reflexivity.
Defined.

Lemma firewall_paths_agree_on_stub :
  exists ign,
    toLegacyIgnored [WithIgnoredCodes [1001]] = Some ign
    /\ observe ((let! fw := rootAdapter_Firewall 0%nat in
                perform (Firewall_Get "iface-1" "rule-1") fw tt
                  [WithIgnoredCodes [1001]]) stub_machine)
       = Some (legacy_method stub (Firewall_Get "iface-1" "rule-1") tt ign
                 (world stub_machine))
    /\ observe ((let! ifaces := rootAdapter_Interfaces 0%nat in
                let! fw := ifaceClient_Firewall ifaces in
                perform (Firewall_Get "iface-1" "rule-1") fw tt
                  [WithIgnoredCodes [1001]]) stub_machine)
       = Some (legacy_method stub (Firewall_Get "iface-1" "rule-1") tt ign
                 (world stub_machine)).
Proof.
  exact (firewall_paths_agree 0%nat stub stub_machine
           (Firewall_Get "iface-1" "rule-1") tt [WithIgnoredCodes [1001]]
           eq_refl eq_refl).
Defined.

(** The scenarios of the package documentation, run against the stub
    wrapped in a recorder: the reply, the requests served and the log. *)

Example LoadBalancerPrefixes_List_on_stub :
  observe ((let! lbs := rootAdapter_LoadBalancers 0%nat in
            let! prefixes := lbClient_Prefixes lbs in
            lbPrefixesClient_List prefixes tt "iface-1" [])
             (instrument [] stub_machine))
  = Some (("ListLoadBalancerPrefixes"%string, None),
          (1%nat,
           [{| rec_method := method.ListLoadBalancerPrefixes; rec_ctx := tt;
               rec_args := [AString "iface-1"]; rec_ignored := nil_slice |}])).
Proof. reflexivity. Qed.

Example NATs_Get_on_stub :
  observe ((let! nats := rootAdapter_NATs 0%nat in
            natClient_Get nats tt "iface-1"
              [WithIgnoredCodes [1001]; WithIgnoredCodes [1002; 1003]])
             (instrument [] stub_machine))
  = Some (("GetNat"%string, None),
          (1%nat,
           [{| rec_method := method.GetNat; rec_ctx := tt;
               rec_args := [AString "iface-1"];
               rec_ignored := mk_slice [mk_slice [1001; 1002; 1003]] |}])).
Proof. reflexivity. Qed.

Example NATs_ListAny_on_stub :
  observe (natClient_ListAny 1%nat tt "10.0.0.1" [] (instrument [] stub_machine))
  = Some (("ListNats"%string, None),
          (1%nat,
           [{| rec_method := method.ListNats; rec_ctx := tt;
               rec_args := [AAddr "10.0.0.1"; AString "any"];
               rec_ignored := nil_slice |}])).
Proof. reflexivity. Qed.

(** An operation invoked through a pointer to another struct panics. *)
Example operation_on_another_struct_panics :
  lbClient_Get 0%nat tt "lb-1" [] stub_machine = None.
Proof. reflexivity. Qed.

(** * Further properties *)

(** ** Composition of options *)

Lemma append_append {A} (s : slice A) (xs ys : list A) :
  append (append s xs) ys = append s (xs ++ ys).
Proof.
  destruct xs as [|x xs]; [done|].
  destruct ys as [|y ys]; simpl.
  - by rewrite app_nil_r.
  - by rewrite <- app_assoc.
Qed.

(** X1. Options regroup: anywhere in an option list, two adjacent
    [WithIgnoredCodes] options act as the one option with their codes
    joined; so a list of option values builds the configuration, and
    converts to the transport form, of the single option that carries
    all their codes. *)
Theorem WithIgnoredCodes_regroups :
  (forall (l1 l2 : list CallOption) (a b : list uint32),
      buildCallOptions (l1 ++ WithIgnoredCodes a :: WithIgnoredCodes b :: l2)
      = buildCallOptions (l1 ++ WithIgnoredCodes (a ++ b) :: l2))
  /\ (forall vs : list OptionValue,
         buildCallOptions (option_of <$> vs)
         = buildCallOptions [WithIgnoredCodes (concat (contributed <$> vs))])
  /\ (forall vs : list OptionValue,
         toLegacyIgnored (option_of <$> vs)
         = toLegacyIgnored [WithIgnoredCodes (concat (contributed <$> vs))]).
Proof.
  assert (forall vs : list OptionValue,
             buildCallOptions (option_of <$> vs)
             = buildCallOptions [WithIgnoredCodes (concat (contributed <$> vs))])
    as Hone.
  { intros vs. rewrite buildCallOptions_values.
    change [WithIgnoredCodes (concat (contributed <$> vs))]
      with (option_of <$> [IgnoredCodes (concat (contributed <$> vs))]).
    rewrite buildCallOptions_values.
    change (contributed <$> [IgnoredCodes (concat (contributed <$> vs))])
      with [concat (contributed <$> vs)].
    simpl. by rewrite app_nil_r. }
  split; [|split; [done|]].
  - intros l1 l2 a b. unfold buildCallOptions. rewrite !range_opts_app.
    destruct (range_opts l1 zero_callOptions) as [o|]; [|done].
    cbn [mbind option_bind range_opts not_nil call_option WithIgnoredCodes ignoredCodes].
    by rewrite append_append.
  - intros vs. unfold toLegacyIgnored. by rewrite Hone.
Qed.

(** X2. The transport form carries exactly the accumulated codes: for
    every option list, flattening the groups of [toLegacyIgnored] gives
    the code list of the built configuration, and converting the single
    option with those codes gives the same transport form again. *)
Theorem toLegacyIgnored_round_trip (opts : list CallOption) :
  exists o ign,
    buildCallOptions opts = Some o
    /\ toLegacyIgnored opts = Some ign
    /\ flatten ign = elems (ignoredCodes o)
    /\ toLegacyIgnored [WithIgnoredCodes (flatten ign)] = Some ign.
Proof.
  unfold toLegacyIgnored at 1.
  destruct (buildCallOptions_total opts) as [[codes] ->]; cbn [mbind option_bind].
  exists {| ignoredCodes := codes |}. cbn [ignoredCodes].
  destruct codes as [|[|code codes]]; eexists; (split; [done|]); (split; [done|]);
    unfold flatten; simpl; rewrite ?app_nil_r; by split.
Qed.

(** X10. Two lists of option values convert to the same transport form
    exactly when they contribute the same codes in the same order:
    nothing is sorted, merged or dropped on the way. *)
Theorem toLegacyIgnored_same_iff_same_codes (vs1 vs2 : list OptionValue) :
  toLegacyIgnored (option_of <$> vs1) = toLegacyIgnored (option_of <$> vs2)
  <-> concat (contributed <$> vs1) = concat (contributed <$> vs2).
Proof.
  rewrite !toLegacyIgnored_values.
  generalize (concat (contributed <$> vs1)) (concat (contributed <$> vs2)).
  intros [|a l1] [|b l2]; split; intros H; try done; by simplify_eq.
Qed.

(** ** Navigation *)

Section NavigationFacts.
Context {F : Foreign} {W : Type}.
Implicit Types (c : LegacyClient W) (m : Machine W) (h : loc).

Lemma follow_path_type (path : list Accessor) : forall k c h m,
  heap m !! h = Some (handle_obj k c) ->
  match path_type k path with
  | Some k' =>
      exists h' added,
        follow path h m
        = Some (h', {| heap := heap m ++ added; world := world m |})
        /\ length added = length path
        /\ Forall (fun o => legacy_of o = c) added
        /\ (heap m ++ added) !! h' = Some (handle_obj k' c)
  | None => follow path h m = None
  end.
Proof.
  induction path as [|a rest IH]; intros k c h m Hh; cbn [path_type follow].
  - exists h, []. rewrite app_nil_r. destruct m; cbn in *. auto.
  - destruct (decide (receiver a = k)) as [<-|Hne].
    + unfold bind. rewrite (navigate_constructs a c h m Hh).
      specialize (IH (yields a) c (length (heap m))
                    {| heap := heap m ++ [handle_obj (yields a) c]; world := world m |}).
      cbn [heap world] in IH.
      specialize (IH (list_lookup_middle _ _ _ _ eq_refl)).
      destruct (path_type (yields a) rest) as [k'|]; [|done].
      destruct IH as (h' & added & Hrun & Hlen & Hall & Hh').
      exists h', (handle_obj (yields a) c :: added).
      rewrite <- app_assoc in Hrun, Hh'. cbn [app] in Hrun, Hh'.
      split; [done|]. split; [by cbn; rewrite Hlen|]. split; [|done].
      constructor; [by destruct (yields a)|done].
    + unfold bind. destruct (navigate a h m) as [[h1 m1]|] eqn:Hnav; [|done].
      apply navigate_inv in Hnav as (c' & Hh1 & _).
      rewrite Hh in Hh1. injection Hh1 as Hh1.
      apply handle_obj_inj in Hh1 as [-> _]. done.
Qed.


(** X3. A chain of accessors from a handle of struct [k] that holds the
    client [c] runs exactly when every accessor is a method of the
    struct it is called on. It then allocates one handle per accessor,
    each holding [c], ends on a handle of the struct the chain leads to,
    and leaves the outside world and the existing handles as they are;
    otherwise it panics. *)
Theorem navigation_follows_types (path : list Accessor) : forall k c h m,
  heap m !! h = Some (handle_obj k c) ->
  match path_type k path with
  | Some k' =>
      exists h' added,
        follow path h m
        = Some (h', {| heap := heap m ++ added; world := world m |})
        /\ length added = length path
        /\ Forall (fun o => legacy_of o = c) added
        /\ (heap m ++ added) !! h' = Some (handle_obj k' c)
  | None => follow path h m = None
  end.
Proof. apply follow_path_type. Qed.

(** X4. A root built by [NewFromProto] holds the legacy client that
    [legacy.NewClient] makes of the transport client: an operation
    invoked at the end of any chain of accessors from that root is
    observed as the corresponding method of that client. *)
Theorem NewFromProto_forwards (NewClient : DPDKironcoreClient -> LegacyClient W)
  (rpc : DPDKironcoreClient) (path : list Accessor) {t} (op : Op t)
  (ctx : context_Context) (opts : list CallOption) m :
  path_type T_rootAdapter path = Some (owner op) ->
  exists ign,
    toLegacyIgnored opts = Some ign
    /\ observe ((let! v2 := NewFromProto NewClient rpc in
                let! h := follow path v2 in
                perform op h ctx opts) m)
       = Some (legacy_method (NewClient rpc) op ctx ign (world m)).
Proof.
  intros Hpath. destruct (toLegacyIgnored_total opts) as [ign Hign].
  exists ign. split; [done|].
  unfold bind at 1, NewFromProto, new. cbn [heap world].
  pose proof (follow_path_type path T_rootAdapter (NewClient rpc)
                (length (heap m))
                {| heap := heap m ++ [handle_obj T_rootAdapter (NewClient rpc)];
                   world := world m |}
                (list_lookup_middle _ _ _ _ eq_refl)) as Hnav.
  rewrite Hpath in Hnav. destruct Hnav as (h' & added & Hrun & _ & _ & Hh').
  cbn [heap world handle_obj] in Hrun, Hh'.
  unfold bind. rewrite Hrun.
  rewrite (perform_forwards op (NewClient rpc) h' ctx opts ign); [|done|done].
  cbn [observe world]. by destruct (legacy_method _ _ _ _ _).
Qed.

End NavigationFacts.

(** ** The calls of distinct invocations *)

Section CallFacts.
Context {F : Foreign}.

(** X5. The forwarding loses nothing: the legacy call determines the
    invocation. Two invocations that make the same call are the same
    operation with the same parameters, context and ignored-code
    groups; no two operations share a legacy method. *)
Theorem forwarded_call_injective {t1 t2} (op1 : Op t1) (op2 : Op t2)
  (ctx1 ctx2 : context_Context) (ign1 ign2 : slice (slice uint32)) :
  forwarded_call op1 ctx1 ign1 = forwarded_call op2 ctx2 ign2 ->
  existT t1 op1 = existT t2 op2 /\ ctx1 = ctx2 /\ ign1 = ign2.
Proof.
  unfold forwarded_call. intros [= Hmethod Hctx Hargs Hign].
  split; [|done].
  destruct op1; destruct op2; cbn in Hmethod; try discriminate Hmethod;
    cbn in Hargs; by simplify_eq.
Qed.

End CallFacts.

(** ** Client programs *)

Section ProgramFacts.
Context {F : Foreign} {W : Type}.
Implicit Types (c : LegacyClient W) (m : Machine W) (h : loc).
Implicit Types (act : @Action F W) (script : list (@Action F W)).

Lemma type_of_handle_obj k c : type_of (handle_obj k c) = k.
Proof. by destruct k. Qed.

Lemma legacy_of_handle_obj k c : legacy_of (handle_obj k c) = c.
Proof. by destruct k. Qed.

Lemma ignored_of_Some opts ign : toLegacyIgnored opts = Some ign -> ignored_of opts = ign.
Proof. unfold ignored_of. by intros ->. Qed.

(** What one step does, read off the heap. *)
Lemma exec_reply_spec act m :
  exec_reply act m
  = match act with
    | DoNewFromProto NewClient rpc =>
        Some ([], {| heap := heap m ++ [handle_obj T_rootAdapter (NewClient rpc)];
                     world := world m |})
    | DoAsV2 c =>
        Some ([], {| heap := heap m ++ [handle_obj T_rootAdapter c];
                     world := world m |})
    | DoNavigate a h =>
        match heap m !! h with
        | Some o =>
            if decide (type_of o = receiver a)
            then Some ([], {| heap := heap m ++ [handle_obj (yields a) (legacy_of o)];
                              world := world m |})
            else None
        | None => None
        end
    | DoPerform op h ctx opts =>
        match heap m !! h with
        | Some o =>
            if decide (type_of o = owner op)
            then Some ([existT _ (fst (legacy_method (legacy_of o) op ctx
                                         (ignored_of opts) (world m)))],
                       {| heap := heap m;
                          world := snd (legacy_method (legacy_of o) op ctx
                                          (ignored_of opts) (world m)) |})
            else None
        | None => None
        end
    end.
Proof.
  destruct act as [NewClient rpc|c|a h|t op h ctx opts]; try done.
  - cbn [exec_reply exec]. unfold bind at 1 2.
    destruct (heap m !! h) as [o|] eqn:Hh.
    + destruct (decide (type_of o = receiver a)) as [Hty|Hty].
      * rewrite (handle_obj_eta o), Hty in Hh.
        by rewrite (navigate_constructs a (legacy_of o) h m Hh).
      * destruct (navigate a h m) as [[h' m']|] eqn:Hnav; [|done].
        apply navigate_inv in Hnav as (c & Hh' & _).
        rewrite Hh in Hh'. injection Hh' as ->.
        by rewrite type_of_handle_obj in Hty.
    + destruct (navigate a h m) as [[h' m']|] eqn:Hnav; [|done].
      apply navigate_inv in Hnav as (c & Hh' & _). congruence.
  - cbn [exec_reply]. unfold bind at 1.
    destruct (toLegacyIgnored_total opts) as [ign Hign].
    rewrite (ignored_of_Some opts ign Hign).
    destruct (heap m !! h) as [o|] eqn:Hh.
    + destruct (decide (type_of o = owner op)) as [Hty|Hty].
      * rewrite (handle_obj_eta o), Hty in Hh.
        by rewrite (perform_forwards op (legacy_of o) h ctx opts ign m Hh Hign).
      * destruct (perform op h ctx opts m) as [[r m']|] eqn:Hrun; [|done].
        apply perform_inv in Hrun as (_ & c & Hh').
        rewrite Hh in Hh'. injection Hh' as ->.
        by rewrite type_of_handle_obj in Hty.
    + destruct (perform op h ctx opts m) as [[r m']|] eqn:Hrun; [|done].
      apply perform_inv in Hrun as (_ & c & Hh'). congruence.
Qed.

(** A step runs exactly when it type-checks, and the structs of the
    handles afterwards are those the check computes. *)
Lemma exec_reply_checked act m :
  match check_step (type_of <$> heap m) act with
  | Some types' =>
      exists rs m', exec_reply act m = Some (rs, m') /\ type_of <$> heap m' = types'
  | None => exec_reply act m = None
  end.
Proof.
  rewrite exec_reply_spec.
  destruct act as [NewClient rpc|c|a h|t op h ctx opts]; cbn [check_step].
  - do 2 eexists. split; [done|]. cbn [heap]. by rewrite fmap_app.
  - do 2 eexists. split; [done|]. cbn [heap]. by rewrite fmap_app.
  - rewrite list_lookup_fmap.
    destruct (heap m !! h) as [o|]; cbn [fmap option_fmap option_map].
    + destruct (decide (type_of o = receiver a)) as [Hty|Hty].
      * rewrite decide_True by congruence.
        do 2 eexists. split; [done|]. cbn [heap].
        by rewrite fmap_app; cbn; rewrite type_of_handle_obj.
      * by rewrite decide_False by congruence.
    + by rewrite decide_False.
  - rewrite list_lookup_fmap.
    destruct (heap m !! h) as [o|]; cbn [fmap option_fmap option_map].
    + destruct (decide (type_of o = owner op)) as [Hty|Hty].
      * rewrite decide_True by congruence. by do 2 eexists.
      * by rewrite decide_False by congruence.
    + by rewrite decide_False.
Qed.


Lemma direct_cons c act script w :
  direct c (act :: script) w
  = (fst (direct c [act] w) ++ fst (direct c script (snd (direct c [act] w))),
     snd (direct c script (snd (direct c [act] w)))).
Proof.
  destruct act as [NewClient rpc|c'|a h|t op h ctx opts]; cbn [direct fst snd app];
    try by destruct (direct c script w).
  destruct (legacy_method c op ctx (ignored_of opts) w) as [r w1]. cbn [fst snd app].
  by destruct (direct c script w1).
Qed.

Lemma allocations_cons act script :
  allocations (act :: script) = (allocations [act] + allocations script)%nat.
Proof. unfold allocations. by destruct act. Qed.

(** One step of a program over the single client [c]. *)
Lemma exec_reply_direct c act m types' :
  Forall (fun o => legacy_of o = c) (heap m) ->
  builds c act ->
  check_step (type_of <$> heap m) act = Some types' ->
  exists added,
    exec_reply act m
    = Some (fst (direct c [act] (world m)),
            {| heap := heap m ++ added; world := snd (direct c [act] (world m)) |})
    /\ length added = allocations [act]
    /\ Forall (fun o => legacy_of o = c) added
    /\ type_of <$> (heap m ++ added) = types'.
Proof.
  intros Hall Hact Hstep.
  pose proof (exec_reply_checked act m) as Hrun. rewrite Hstep in Hrun.
  destruct Hrun as (rs & m1 & Hrun & <-). rewrite Hrun.
  rewrite exec_reply_spec in Hrun.
  destruct act as [NewClient rpc|c'|a h|t op h ctx opts]; cbn [builds] in Hact.
  - injection Hrun as <- <-. rewrite Hact.
    exists [handle_obj T_rootAdapter c]. repeat split.
    constructor; [apply legacy_of_handle_obj|done].
  - injection Hrun as <- <-. rewrite Hact.
    exists [handle_obj T_rootAdapter c]. repeat split.
    constructor; [apply legacy_of_handle_obj|done].
  - destruct (heap m !! h) as [o|] eqn:Hh; [|done].
    destruct (decide (type_of o = receiver a)); [|done].
    injection Hrun as <- <-. rewrite (Forall_lookup_1 _ _ _ _ Hall Hh).
    exists [handle_obj (yields a) c]. repeat split.
    constructor; [apply legacy_of_handle_obj|done].
  - destruct (heap m !! h) as [o|] eqn:Hh; [|done].
    destruct (decide (type_of o = owner op)); [|done].
    injection Hrun as <- <-. rewrite (Forall_lookup_1 _ _ _ _ Hall Hh).
    exists []. cbn [direct heap world]. rewrite app_nil_r.
    by destruct (legacy_method c op ctx (ignored_of opts) (world m)).
Qed.

Lemma direct_invocations c script w :
  direct c script w = invoke_all c (invocations script) w.
Proof.
  revert w. induction script as [|act rest IH]; intros w; [done|].
  destruct act as [NewClient rpc|c'|a h|t op h ctx opts]; try apply IH.
  change (invocations (DoPerform op h ctx opts :: rest))
    with ({| inv_op := op; inv_ctx := ctx; inv_opts := opts |} :: invocations rest).
  cbn [direct invoke_all inv_type inv_op inv_ctx inv_opts].
  destruct (legacy_method c op ctx (ignored_of opts) w) as [r w1].
  by rewrite IH.
Qed.

Lemma run_direct c script : forall m,
  Forall (fun o => legacy_of o = c) (heap m) ->
  Forall (builds c) script ->
  check (type_of <$> heap m) script = true ->
  exists added,
    run script m
    = Some (fst (direct c script (world m)),
            {| heap := heap m ++ added;
               world := snd (direct c script (world m)) |})
    /\ length added = allocations script
    /\ Forall (fun o => legacy_of o = c) added.
Proof.
  induction script as [|act rest IH]; intros m Hall Hbuilds Hcheck.
  - exists []. rewrite app_nil_r. by destruct m.
  - apply Forall_cons in Hbuilds as [Hact Hrest].
    cbn [run check] in Hcheck |- *.
    destruct (check_step (type_of <$> heap m) act) as [types'|] eqn:Hstep; [|done].
    destruct (exec_reply_direct c act m types' Hall Hact Hstep)
      as (added1 & Hrun1 & Hlen1 & Hall1 & <-).
    destruct (IH {| heap := heap m ++ added1; world := snd (direct c [act] (world m)) |})
      as (added2 & Hrun2 & Hlen2 & Hall2); [by apply Forall_app|done|done|].
    cbn [heap world] in Hrun2.
    exists (added1 ++ added2).
    unfold bind, ret.
    rewrite Hrun1, Hrun2, (direct_cons c act rest (world m)), (allocations_cons act rest).
    cbn [fst snd]. rewrite app_assoc, length_app, Hlen1, Hlen2.
    split; [done|]. split; [done|]. by apply Forall_app.
Qed.


(** X7. The facade is transparent. A well-typed program whose roots all
    hold the client [c] returns the replies, and leaves the outside
    world in the state, of its operations invoked directly on [c] one
    after the other; constructors and accessors contribute nothing but
    one handle each, and every handle holds [c]. *)
Theorem run_is_direct c script : forall m,
  Forall (fun o => legacy_of o = c) (heap m) ->
  Forall (builds c) script ->
  check (type_of <$> heap m) script = true ->
  exists added,
    run script m
    = Some (fst (direct c script (world m)),
            {| heap := heap m ++ added;
               world := snd (direct c script (world m)) |})
    /\ length added = allocations script
    /\ Forall (fun o => legacy_of o = c) added.
Proof. apply run_direct. Qed.

(** X9. Navigation is invisible. Two well-typed programs over the same
    client that invoke the same operations with the same contexts and
    options in the same order return the same replies and leave the
    outside world in the same state, whatever handles they build, keep
    or build again, and by whichever path they reach them. *)
Theorem same_invocations_same_outcome c script1 script2 m :
  Forall (fun o => legacy_of o = c) (heap m) ->
  Forall (builds c) script1 ->
  Forall (builds c) script2 ->
  check (type_of <$> heap m) script1 = true ->
  check (type_of <$> heap m) script2 = true ->
  invocations script1 = invocations script2 ->
  observe (run script1 m) = observe (run script2 m)
  /\ observe (run script1 m) = Some (invoke_all c (invocations script1) (world m)).
Proof.
  intros Hall Hb1 Hb2 Hc1 Hc2 Hinv.
  destruct (run_direct c script1 m Hall Hb1 Hc1) as (added1 & -> & _).
  destruct (run_direct c script2 m Hall Hb2 Hc2) as (added2 & -> & _).
  cbn [observe world]. rewrite !direct_invocations, <- Hinv.
  by destruct (invoke_all c (invocations script1) (world m)).
Qed.

End ProgramFacts.

(** ** Client programs under the recorder *)

Section RecordedProgramFacts.
Context {F : Foreign} {W : Type}.
Implicit Types (m : Machine W) (log : list CallRecord).
Implicit Types (act : @Action F W) (script : list (@Action F W)).

Lemma type_of_instrument_obj (o : Obj W) : type_of (instrument_obj o) = type_of o.
Proof. apply type_of_handle_obj. Qed.

Lemma legacy_of_instrument_obj (o : Obj W) :
  legacy_of (instrument_obj o) = recording (legacy_of o).
Proof. apply legacy_of_handle_obj. Qed.

Lemma instrument_push log m k c :
  {| heap := heap (instrument log m) ++ [handle_obj k (recording c)];
     world := world (instrument log m) |}
  = instrument log {| heap := heap m ++ [handle_obj k c]; world := world m |}.
Proof.
  unfold instrument. cbn [heap world]. rewrite fmap_app.
  change (instrument_obj <$> [handle_obj k c]) with [instrument_obj (handle_obj k c)].
  unfold instrument_obj. by rewrite type_of_handle_obj, legacy_of_handle_obj.
Qed.

Lemma exec_reply_recorded act m log :
  exec_reply (instrument_action act) (instrument log m)
  = (fun '(rs, m') => (rs, instrument (log ++ calls [act]) m')) <$> exec_reply act m.
Proof.
  rewrite !exec_reply_spec.
  destruct act as [NewClient rpc|c|a h|t op h ctx opts];
    cbn [instrument_action calls flat_map app]; rewrite ?app_nil_r.
  - by rewrite instrument_push.
  - by rewrite instrument_push.
  - cbn [instrument heap]. rewrite list_lookup_fmap.
    destruct (heap m !! h) as [o|]; [|done].
    cbn [fmap option_fmap option_map].
    rewrite type_of_instrument_obj, legacy_of_instrument_obj.
    destruct (decide (type_of o = receiver a)); [|done].
    cbn [fmap option_fmap option_map]. do 2 f_equal. apply instrument_push.
  - cbn [instrument heap]. rewrite list_lookup_fmap.
    destruct (heap m !! h) as [o|]; [|done].
    cbn [fmap option_fmap option_map].
    rewrite type_of_instrument_obj, legacy_of_instrument_obj.
    destruct (decide (type_of o = owner op)); [|done].
    cbn [fmap option_fmap option_map]. unfold instrument at 1 2. cbn [world].
    by rewrite legacy_method_recording.
Qed.

Lemma calls_cons act script : calls (act :: script) = calls [act] ++ calls script.
Proof. unfold calls. cbn [flat_map]. by rewrite app_nil_r. Qed.

(** X8. Wrapping the legacy clients of a program in recorders changes
    nothing the program can see: it panics when the program does and
    otherwise returns the same replies and leaves the same heap and
    world. The log grows by exactly the calls of the program's
    operations, in order, one call per operation; constructors and
    accessors log nothing. *)
Theorem recorded_run_logs_the_calls script :
  (forall m log,
      run (instrument_action <$> script) (instrument log m)
      = (fun '(rs, m') => (rs, instrument (log ++ calls script) m')) <$> run script m)
  /\ length (calls script) = operations script.
Proof.
  split.
  - induction script as [|act rest IH]; intros m log.
    + cbn. by rewrite app_nil_r.
    + rewrite fmap_cons. cbn [run]. unfold bind at 1 3.
      rewrite exec_reply_recorded.
      destruct (exec_reply act m) as [[rs m1]|]; [|done].
      cbn [fmap option_fmap option_map]. unfold bind.
      rewrite IH.
      destruct (run rest m1) as [[more m2]|]; [|done].
      by rewrite (calls_cons act rest), app_assoc.
  - induction script as [|act rest IH]; [done|].
    rewrite calls_cons, length_app, IH.
    unfold operations. by destruct act.
Qed.

End RecordedProgramFacts.

(** ** The further properties at work on the stub client *)

Lemma navigation_follows_types_on_stub :
  exists h' added,
    follow [Client_Interfaces_acc; Interfaces_Firewall_acc] 0%nat stub_machine
    = Some (h', {| heap := heap stub_machine ++ added; world := world stub_machine |})
    /\ length added = 2%nat
    /\ Forall (fun o => legacy_of o = stub) added
    /\ (heap stub_machine ++ added) !! h' = Some (handle_obj T_fwClient stub).
Proof.
  exact (navigation_follows_types [Client_Interfaces_acc; Interfaces_Firewall_acc]
           T_rootAdapter stub 0%nat stub_machine eq_refl).
Defined.

Lemma NewFromProto_forwards_on_stub :
  exists ign,
    toLegacyIgnored [WithIgnoredCodes [1001]] = Some ign
    /\ observe ((let! v2 := NewFromProto (fun _ => stub) tt in
                let! h := follow [Client_LoadBalancers_acc; LoadBalancers_Prefixes_acc] v2 in
                perform (LoadBalancerPrefixes_List "iface-1") h tt
                  [WithIgnoredCodes [1001]]) stub_machine)
       = Some (legacy_method stub (LoadBalancerPrefixes_List "iface-1") tt ign
                 (world stub_machine)).
Proof.
  exact (NewFromProto_forwards (fun _ => stub) tt
           [Client_LoadBalancers_acc; LoadBalancers_Prefixes_acc]
           (LoadBalancerPrefixes_List "iface-1") tt [WithIgnoredCodes [1001]]
           stub_machine eq_refl).
Defined.

Lemma forwarded_call_injective_on_stub :
  existT api.NatList (NATs_ListAny "10.0.0.1") = existT api.NatList (NATs_ListAny "10.0.0.1")
  /\ tt = tt
  /\ mk_slice [mk_slice [1001]] = mk_slice [mk_slice [1001]].
Proof.
  exact (forwarded_call_injective (NATs_ListAny "10.0.0.1") (NATs_ListAny "10.0.0.1")
           tt tt (mk_slice [mk_slice [1001]]) (mk_slice [mk_slice [1001]]) eq_refl).
Defined.

Lemma stub_machine_shares : Forall (fun o => legacy_of o = stub) (heap stub_machine).
Proof. repeat constructor. Defined.

Lemma routes_example_builds : Forall (builds stub) routes_example.
Proof. repeat constructor. Defined.

Lemma routes_example_one_handle_builds : Forall (builds stub) routes_example_one_handle.
Proof. repeat constructor. Defined.

Lemma run_is_direct_on_stub :
  exists added,
    run routes_example stub_machine
    = Some (fst (direct stub routes_example (world stub_machine)),
            {| heap := heap stub_machine ++ added;
               world := snd (direct stub routes_example (world stub_machine)) |})
    /\ length added = allocations routes_example
    /\ Forall (fun o => legacy_of o = stub) added.
Proof.
  exact (run_is_direct stub routes_example stub_machine
           stub_machine_shares routes_example_builds eq_refl).
Defined.

Lemma same_invocations_same_outcome_on_stub :
  observe (run routes_example stub_machine)
  = observe (run routes_example_one_handle stub_machine)
  /\ observe (run routes_example stub_machine)
     = Some (invoke_all stub (invocations routes_example) (world stub_machine)).
Proof.
  exact (same_invocations_same_outcome stub routes_example routes_example_one_handle
           stub_machine stub_machine_shares routes_example_builds
           routes_example_one_handle_builds eq_refl eq_refl eq_refl).
Defined.

(** The routes example under the recorder: three requests served, three
    calls logged. *)
Example routes_example_recorded :
  observe (run (instrument_action <$> routes_example) (instrument [] stub_machine))
  = Some ([existT api.RouteList ("ListRoutes"%string, None);
           existT api.Route ("CreateRoute"%string, None);
           existT api.Route ("DeleteRoute"%string, None)],
          (3%nat,
           [{| rec_method := method.ListRoutes; rec_ctx := tt;
               rec_args := [AUint32 42]; rec_ignored := nil_slice |};
            {| rec_method := method.CreateRoute; rec_ctx := tt;
               rec_args := [AObj api.Route "route"]; rec_ignored := nil_slice |};
            {| rec_method := method.DeleteRoute; rec_ctx := tt;
               rec_args := [AUint32 42; APrefix "10.0.0.0/24"];
               rec_ignored := nil_slice |}])).
Proof. reflexivity. Qed.

(** A program that invokes a route operation on the root panics. *)
Example ill_typed_program_panics :
  check (type_of <$> heap stub_machine)
    ([DoPerform (Routes_List 42) 0%nat tt []] : list (@Action stub_types nat)) = false
  /\ run [DoPerform (Routes_List 42) 0%nat tt []] stub_machine = None.
Proof. by split. Qed.
